(** * xchainer/routines/connection.cc

    Convolution, transposed convolution and the weight-gradient operator of
    xchainer: the dimension arithmetic of [GetConvOutDim] and
    [GetConvTransposeOutDim], and the wiring of the backward functions that
    [Conv], [ConvTranspose] and [ConvGradW] register with [SetUpOpNodes]. *)

From Stdlib Require Import String ZArith Bool List Lia.
Import ListNotations.
Open Scope Z_scope.

(** ** Machine integers *)

Definition INT64_MIN : Z := - 2 ^ 63.
Definition INT64_MAX : Z := 2 ^ 63 - 1.
Definition INT8_MAX : Z := 127.

(** Two's complement reduction of an exact integer to [int64_t]. *)
Definition to_int64 (z : Z) : Z := (z + 2 ^ 63) mod 2 ^ 64 - 2 ^ 63.

(** Two's complement reduction to [int8_t]. *)
Definition to_int8 (z : Z) : Z := (z + 2 ^ 7) mod 2 ^ 8 - 2 ^ 7.

(** [static_cast<size_t>] of a signed value. *)
Definition to_size_t (z : Z) : Z := z mod 2 ^ 64.

Definition add64 (a b : Z) : Z := to_int64 (a + b).
Definition sub64 (a b : Z) : Z := to_int64 (a - b).
Definition mul64 (a b : Z) : Z := to_int64 (a * b).

(** ** Failures

    The ways a call can leave the defined behaviour of the program: a failed
    [assert], an index outside a [StackVector], a division by zero, and the
    one quotient of two [int64_t] that is not an [int64_t]. *)

Inductive Failure : Type :=
| AssertionFailure
| OutOfRange
| DivisionByZero
| DivisionOverflow.

Inductive Result (A : Type) : Type :=
| Ok (a : A)
| Err (e : Failure).

Arguments Ok {A} a.
Arguments Err {A} e.

Definition rbind {A B : Type} (r : Result A) (k : A -> Result B) : Result B :=
  match r with
  | Ok a => k a
  | Err e => Err e
  end.

Declare Scope result_scope.
Delimit Scope result_scope with result.
Notation "'let?' x ':=' r 'in' k" := (rbind r (fun x => k))
  (at level 10, x name, r at level 100, k at level 200) : result_scope.
Open Scope result_scope.

(** [a / b] on [int64_t]: the quotient truncates toward zero.  Dividing by
    zero and dividing [INT64_MIN] by [-1] have no result (the division
    traps). *)
Definition div64 (a b : Z) : Result Z :=
  if b =? 0 then Err DivisionByZero
  else if (a =? INT64_MIN) && (b =? -1) then Err DivisionOverflow
  else Ok (to_int64 (Z.quot a b)).

(** ** Dimension arithmetic (namespace [internal]) *)

Definition GetConvOutDim (in_dim kernel_size stride pad : Z) (cover_all : bool)
  : Result Z :=
  if cover_all then
    let? q := div64 (sub64 (add64 (sub64 (add64 in_dim (mul64 pad 2)) kernel_size) stride) 1)
                    stride in
    Ok (add64 q 1)
  else
    let? q := div64 (sub64 (add64 in_dim (mul64 pad 2)) kernel_size) stride in
    Ok (add64 q 1).

Definition GetConvTransposeOutDim (in_dim kernel_size stride pad : Z) (cover_all : bool)
  : Z :=
  if cover_all then
    sub64 (add64 (sub64 (add64 (mul64 stride (sub64 in_dim 1)) kernel_size) stride) 1)
          (mul64 2 pad)
  else
    sub64 (add64 (mul64 stride (sub64 in_dim 1)) kernel_size) (mul64 2 pad).

(** The spec's words for the two roundings of a quotient. *)
Definition floor_div (a b : Z) : Z := a / b.
Definition ceil_div (a b : Z) : Z :=
  if a mod b =? 0 then a / b else a / b + 1.

(** The round trip of section 8: a convolution output size fed back through
    the transposed formula with the same parameters. *)
Definition ConvRoundTrip (in_dim kernel_size stride pad : Z) (cover_all : bool)
  : Result Z :=
  let? out := GetConvOutDim in_dim kernel_size stride pad cover_all in
  Ok (GetConvTransposeOutDim out kernel_size stride pad cover_all).

(** The arguments section 8 calls valid. *)
Definition valid_args (in_dim kernel_size stride pad : Z) : Prop :=
  1 <= in_dim /\ 1 <= kernel_size /\ 1 <= stride /\ 0 <= pad /\
  kernel_size <= in_dim + 2 * pad.


(** ** Shapes and per-axis parameter lists

    [Shape], [Axes] and [StackVector<int64_t, kMaxNdim>] are sequences of
    integers held in a fixed-capacity array, whose type is declared in other
    files of the library; [Shape::ndim()] returns the number of axes as an
    [int8_t], so a shape never has more than [INT8_MAX] axes, and a loop
    counter [int8_t i] below [ndim()] does not wrap. *)

Definition Shape : Type := list Z.
Definition StackVector : Type := list Z.
Definition Axes : Type := list Z.

Definition ndim (s : Shape) : Z := Z.of_nat (length s).
Definition size (v : StackVector) : Z := Z.of_nat (length v).

(** [v[i]]: an index outside [0 .. size-1] leaves the defined behaviour. *)
Definition at_index (v : list Z) (i : Z) : Result Z :=
  if i <? 0 then Err OutOfRange
  else match nth_error v (Z.to_nat i) with
       | Some z => Ok z
       | None => Err OutOfRange
       end.

(** [StackVector<int64_t, kMaxNdim>{s.begin() + 2, s.end()}]: the spatial
    axes of a shape.  The iterator range is only defined when the shape has
    its two leading axes. *)
Definition spatial_dims (s : Shape) : Result StackVector :=
  if 2 <=? ndim s then Ok (skipn 2 s) else Err OutOfRange.

(** The values [lo, lo+1, ...] a counting [for] loop runs through in [n]
    iterations. *)
Fixpoint zrange (lo : Z) (n : nat) : list Z :=
  match n with
  | O => []
  | S n' => lo :: zrange (lo + 1) n'
  end.

(** [for (i = lo; i < hi; ++i)] *)
Definition for_range (lo hi : Z) : list Z := zrange lo (Z.to_nat (hi - lo)).

(** A loop whose body appends one computed entry per iteration. *)
Fixpoint emplace_each (body : Z -> Result Z) (idx : list Z) : Result StackVector :=
  match idx with
  | [] => Ok []
  | i :: rest =>
      let? v := body i in
      let? vs := emplace_each body rest in
      Ok (v :: vs)
  end.

Definition assert (b : bool) : Result unit :=
  if b then Ok tt else Err AssertionFailure.

(** Conversion of an [int64_t] argument to a [bool] parameter. *)
Definition int64_to_bool (z : Z) : bool := negb (z =? 0).

(** ** Collaborators

    The array type, the device kernels, the constant view and the reduction
    are declared in other files of the library; the routines below are
    written against this interface.  [DeviceConv x w b stride pad cover_all]
    is [x.device().Conv(x, w, b, stride, pad, cover_all)], and likewise for
    the other two kernels, which are dispatched on the device of their first
    array argument.  What [Sum] and [AsConstant] do to the graph is theirs
    and is not part of the graph recorded here. *)

Class Runtime : Type := {
  Array : Type;
  Dtype : Type;
  GraphId : Type;
  shape : Array -> Shape;
  dtype : Array -> Dtype;
  AsConstant : Array -> list GraphId -> Array;
  DeviceConv :
    Array -> Array -> option Array -> StackVector -> StackVector -> bool -> Array;
  DeviceConvTranspose :
    Array -> Array -> option Array -> StackVector -> StackVector -> StackVector -> Array;
  DeviceConvGradWeight :
    Dtype -> Shape -> Array -> Array -> StackVector -> StackVector -> bool -> Array;
  Sum : Array -> Axes -> bool -> Array
}.

(** Modelled from the spec: the shape of [Sum(a, axes, keep_dims = false)],
    whose definition is in routines/math: the axes of [a] that are not
    reduced, in order. *)
Fixpoint reduced_shape_from (i : Z) (s : Shape) (axes : Axes) : Shape :=
  match s with
  | [] => []
  | d :: rest =>
      if existsb (Z.eqb i) axes then reduced_shape_from (i + 1) rest axes
      else d :: reduced_shape_from (i + 1) rest axes
  end.

Definition reduced_shape (s : Shape) (axes : Axes) : Shape :=
  reduced_shape_from 0 s axes.

Section Routines.

Context {R : Runtime}.

(** ** Backward functions

    Each lambda of the source is a closure: a body together with the values
    it captured when the operator ran.  One constructor per lambda carries
    the captured values; [call_backward] below is the body. *)

Inductive BackwardFunction : Type :=
| ConvGradW_x_backward (x_shape : Shape) (gy : Array) (stride pad : StackVector)
| ConvGradW_gy_backward (x : Array) (stride pad : StackVector) (cover_all : bool)
| Conv_x_backward (x_shape : Shape) (w : Array) (stride pad : StackVector)
| Conv_w_backward (w_dtype : Dtype) (w_shape : Shape) (x : Array)
    (stride pad : StackVector) (cover_all : bool)
| Conv_b_backward
| ConvTranspose_x_backward (x_shape : Shape) (w : Array) (stride pad : StackVector)
    (cover_all : bool)
| ConvTranspose_w_backward (w_dtype : Dtype) (w_shape : Shape) (x : Array)
    (stride pad : StackVector) (cover_all : bool)
| ConvTranspose_b_backward.

(** ** Graph registration *)

Record OpNode : Type := {
  op_name : string;
  op_inputs : list Array;
  op_output : Array;
  op_backward : list BackwardFunction
}.

Definition Graph : Type := list OpNode.

(** A routine runs on the graph built so far and either fails or returns a
    value and the extended graph. *)
Definition Op (A : Type) : Type := Graph -> Result (A * Graph).

(** Modelled from the spec: [internal::SetUpOpNodes] is the graph
    registration interface; it records the operation name, the inputs, the
    output and one backward function per input, in the same order. *)
Definition SetUpOpNodes (name : string) (inputs : list Array) (out : Array)
    (backward_functions : list BackwardFunction) (g : Graph) : Graph :=
  g ++ [ {| op_name := name; op_inputs := inputs; op_output := out;
            op_backward := backward_functions |} ].

(** [registers g g' name out k a f]: going from [g] to [g'] registered one
    operation [name] with output [out] whose [k]-th input is [a], with [f]
    as the backward function for that input. *)
Definition registers (g g' : Graph) (name : string) (out : Array) (k : nat)
    (a : Array) (f : BackwardFunction) : Prop :=
  exists node,
    g' = g ++ [node] /\ op_name node = name /\ op_output node = out /\
    length (op_inputs node) = length (op_backward node) /\
    nth_error (op_inputs node) k = Some a /\
    nth_error (op_backward node) k = Some f.

(** ** ConvGradW *)

Definition ConvGradW (w_dtype : Dtype) (w_shape : Shape) (x gy : Array)
    (stride pad : StackVector) (cover_all : bool) : Op Array :=
  fun g =>
    let ndim_ := to_int8 (ndim w_shape - 2) in
    let? _ := assert (0 <? ndim_) in
    let? _ := assert (ndim (shape x) =? ndim_ + 2) in
    let? _ := assert (ndim (shape gy) =? ndim_ + 2) in
    let? _ := assert (size stride =? to_size_t ndim_) in
    let? _ := assert (size pad =? to_size_t ndim_) in
    let out := DeviceConvGradWeight w_dtype w_shape x gy stride pad cover_all in
    let x_backward_function := ConvGradW_x_backward (shape x) gy stride pad in
    let gy_backward_function := ConvGradW_gy_backward x stride pad cover_all in
    Ok (out, SetUpOpNodes "conv-grad-weight"%string [x; gy] out
               [x_backward_function; gy_backward_function] g).

(** ** Conv *)

Definition Conv (x w : Array) (b : option Array) (stride pad : StackVector)
    (cover_all : bool) : Op Array :=
  fun g =>
    let out := DeviceConv x w b stride pad cover_all in
    let x_backward_function := Conv_x_backward (shape x) w stride pad in
    let w_backward_function :=
      Conv_w_backward (dtype w) (shape w) x stride pad cover_all in
    match b with
    | Some b' =>
        let b_backward_function := Conv_b_backward in
        Ok (out, SetUpOpNodes "conv"%string [x; w; b'] out
                   [x_backward_function; w_backward_function; b_backward_function] g)
    | None =>
        Ok (out, SetUpOpNodes "conv"%string [x; w] out
                   [x_backward_function; w_backward_function] g)
    end.

(** ** ConvTranspose *)

(** "Compute out_size if not specified". *)
Definition real_out_size_of (ndim_ : Z) (x_shape w_shape : Shape)
    (stride pad : StackVector) (out_size : option StackVector) : Result StackVector :=
  match out_size with
  | Some s => Ok s
  | None =>
      emplace_each
        (fun i =>
           let? xd := at_index x_shape (i + 2) in
           let? wd := at_index w_shape (i + 2) in
           let? s := at_index stride i in
           let? p := at_index pad i in
           Ok (GetConvTransposeOutDim xd wd s p false))
        (for_range 0 ndim_)
  end.

(** The test of the "Detect cover_all" loop at index [i]: the five arguments
    go to [GetConvOutDim] in the order the call lists them. *)
Definition cover_all_test (x_shape w_shape : Shape)
    (real_out_size stride pad : StackVector) (i : Z) : Result bool :=
  let? xdim := at_index x_shape i in
  let? a_kernel_size := at_index real_out_size i in
  let? a_stride := at_index w_shape (i + 2) in
  let? a_pad := at_index stride i in
  let? a_cover_all := at_index pad i in
  let? d := GetConvOutDim xdim a_kernel_size a_stride a_pad (int64_to_bool a_cover_all) in
  Ok (negb (xdim =? d)).

Fixpoint detect_cover_all_loop (x_shape w_shape : Shape)
    (real_out_size stride pad : StackVector) (idx : list Z) : Result bool :=
  match idx with
  | [] => Ok false
  | i :: rest =>
      let? differs := cover_all_test x_shape w_shape real_out_size stride pad i in
      if differs then Ok true
      else detect_cover_all_loop x_shape w_shape real_out_size stride pad rest
  end.

(** "Detect cover_all": [for (int8_t i = 0; i < x.ndim(); ++i)]. *)
Definition detect_cover_all (x_shape w_shape : Shape)
    (real_out_size stride pad : StackVector) : Result bool :=
  detect_cover_all_loop x_shape w_shape real_out_size stride pad
    (for_range 0 (ndim x_shape)).

Definition ConvTranspose (x w : Array) (b : option Array) (stride pad : StackVector)
    (out_size : option StackVector) : Op Array :=
  fun g =>
    let ndim_ := to_int8 (ndim (shape x) - 2) in
    let? real_out_size := real_out_size_of ndim_ (shape x) (shape w) stride pad out_size in
    let out := DeviceConvTranspose x w b stride pad real_out_size in
    let? cover_all := detect_cover_all (shape x) (shape w) real_out_size stride pad in
    let x_backward_function :=
      ConvTranspose_x_backward (shape x) w stride pad cover_all in
    let w_backward_function :=
      ConvTranspose_w_backward (dtype w) (shape w) x stride pad cover_all in
    match b with
    | Some b' =>
        let b_backward_function := ConvTranspose_b_backward in
        Ok (out, SetUpOpNodes "conv_transpose"%string [x; w; b'] out
                   [x_backward_function; w_backward_function; b_backward_function] g)
    | None =>
        Ok (out, SetUpOpNodes "conv_transpose"%string [x; w] out
                   [x_backward_function; w_backward_function] g)
    end.

(** ** Bodies of the backward functions *)

(** [Axes axis{0}; for (int8_t i = 2; i < gout.ndim(); ++i) axis.emplace_back(i);] *)
Definition bias_axes (gout_ndim : Z) : Axes := 0 :: for_range 2 gout_ndim.

Definition call_backward (f : BackwardFunction) (gout : Array)
    (graph_ids_to_stop_gradient : list GraphId) : Op Array :=
  match f with
  | ConvGradW_x_backward x_shape gy stride pad =>
      fun g =>
        let? out_size := spatial_dims x_shape in
        let? _ := assert (size out_size =? size stride) in
        ConvTranspose (AsConstant gy graph_ids_to_stop_gradient) gout None
                      stride pad (Some out_size) g
  | ConvGradW_gy_backward x stride pad cover_all =>
      Conv (AsConstant x graph_ids_to_stop_gradient) gout None stride pad cover_all
  | Conv_x_backward x_shape w stride pad =>
      fun g =>
        let? out_size := spatial_dims x_shape in
        ConvTranspose gout (AsConstant w graph_ids_to_stop_gradient) None
                      stride pad (Some out_size) g
  | Conv_w_backward w_dtype w_shape x stride pad cover_all =>
      ConvGradW w_dtype w_shape (AsConstant x graph_ids_to_stop_gradient) gout
                stride pad cover_all
  | Conv_b_backward =>
      fun g => Ok (Sum gout (bias_axes (ndim (shape gout))) false, g)
  | ConvTranspose_x_backward _ w stride pad cover_all =>
      Conv gout (AsConstant w graph_ids_to_stop_gradient) None stride pad cover_all
  | ConvTranspose_w_backward w_dtype w_shape x stride pad cover_all =>
      ConvGradW w_dtype w_shape gout (AsConstant x graph_ids_to_stop_gradient)
                stride pad cover_all
  | ConvTranspose_b_backward =>
      fun g => Ok (Sum gout (bias_axes (ndim (shape gout))) false, g)
  end.

End Routines.

Arguments BackwardFunction R : clear implicits.
Arguments OpNode R : clear implicits.
Arguments Graph R : clear implicits.

(** ** A shape-level runtime

    Arrays known by their shape alone: each kernel returns the shape of its
    result.  The routines run on it as they are, which is how the properties
    below are exercised on concrete calls. *)

Fixpoint conv_out_dims (xs ks stride pad : list Z) (cover_all : bool) : list Z :=
  match xs, ks, stride, pad with
  | x :: xs', k :: ks', s :: stride', p :: pad' =>
      match GetConvOutDim x k s p cover_all with
      | Ok d => d :: conv_out_dims xs' ks' stride' pad' cover_all
      | Err _ => []
      end
  | _, _, _, _ => []
  end.

Definition kept_shape (s : Shape) (axes : Axes) : Shape :=
  map (fun p => if existsb (Z.eqb (fst p)) axes then 1 else snd p)
      (combine (zrange 0 (length s)) s).

Definition ShapeRuntime : Runtime := {|
  Array := Shape;
  Dtype := unit;
  GraphId := nat;
  shape := fun a => a;
  dtype := fun _ => tt;
  AsConstant := fun a _ => a;
  DeviceConv := fun x w _ stride pad cover_all =>
    firstn 1 x ++ firstn 1 w
    ++ conv_out_dims (skipn 2 x) (skipn 2 w) stride pad cover_all;
  DeviceConvTranspose := fun x w _ _ _ out_size =>
    firstn 1 x ++ firstn 1 (skipn 1 w) ++ out_size;
  DeviceConvGradWeight := fun _ w_shape _ _ _ _ _ => w_shape;
  Sum := fun a axes keep_dims =>
    if keep_dims then kept_shape a axes else reduced_shape a axes
|}.

(** An array of the shape-level runtime, given by its shape. *)
Definition array_of_shape (s : Shape) : @Array ShapeRuntime := s.

(** ** Congruence of exact integers modulo [2 ^ 64] *)

Definition eqm64 (x y : Z) : Prop := exists k, x = y + k * 2 ^ 64.
(** ** Integer lemmas *)

Lemma to_int64_small (z : Z) :
  INT64_MIN <= z <= INT64_MAX -> to_int64 z = z.
Proof.
  unfold INT64_MIN, INT64_MAX, to_int64. intros H.
  rewrite Z.mod_small; lia.
Qed.

Lemma quot_nonneg_div (a b : Z) : 0 <= a -> 0 < b -> Z.quot a b = a / b.
Proof.
  intros Ha Hb. apply Z.quot_div_nonneg; lia.
Qed.

Lemma div_bounds (a b : Z) : 0 <= a -> 0 < b -> 0 <= a / b <= a.
Proof.
  intros Ha Hb. split.
  - apply Z.div_pos; lia.
  - apply Z.div_le_upper_bound; [lia |].
    assert (0 <= (b - 1) * a) by (apply Z.mul_nonneg_nonneg; lia). lia.
Qed.

Lemma quot_bounds (a b : Z) : 0 < b -> Z.min a 0 <= Z.quot a b <= Z.max a 0.
Proof.
  intros Hb. destruct (Z_le_gt_dec 0 a) as [Ha | Ha].
  - rewrite quot_nonneg_div by lia. pose proof (div_bounds a b Ha Hb). lia.
  - assert (E : Z.quot a b = - Z.quot (- a) b)
      by (rewrite Z.quot_opp_l by lia; lia).
    rewrite E, quot_nonneg_div by lia.
    pose proof (div_bounds (- a) b ltac:(lia) Hb). lia.
Qed.

(** Removes every reduction to [int64_t] whose exact argument is in range. *)
Ltac int64_exact :=
  unfold add64, sub64, mul64;
  repeat match goal with
         | |- context [to_int64 ?z] =>
             rewrite (to_int64_small z) by (unfold INT64_MIN, INT64_MAX in *; lia)
         end.

Lemma div64_exact (a b : Z) :
  0 < b -> INT64_MIN <= a <= INT64_MAX -> div64 a b = Ok (Z.quot a b).
Proof.
  intros Hb Ha. unfold div64.
  destruct (Z.eqb_spec b 0) as [-> | _]; [lia |].
  destruct (Z.eqb_spec b (-1)) as [-> | _]; [lia |]. rewrite andb_false_r.
  pose proof (quot_bounds a b Hb).
  rewrite to_int64_small; [reflexivity | unfold INT64_MIN, INT64_MAX in *; lia].
Qed.

Lemma ceil_div_quot (a b : Z) :
  0 <= a + b - 1 -> 0 < b -> Z.quot (a + b - 1) b = ceil_div a b.
Proof.
  intros Ha Hb. rewrite quot_nonneg_div by lia. unfold ceil_div.
  pose proof (Z.div_mod a b ltac:(lia)) as E.
  pose proof (Z.mod_pos_bound a b Hb) as Hr.
  destruct (Z.eqb_spec (a mod b) 0) as [H0 | H0].
  - symmetry. apply (Z.div_unique _ _ _ (b - 1)); [lia |].
    rewrite H0 in E. lia.
  - symmetry. apply (Z.div_unique _ _ _ (a mod b - 1)); lia.
Qed.

(** Exact value of [GetConvOutDim] when no intermediate result overflows. *)
Lemma GetConvOutDim_exact (in_dim kernel_size stride pad : Z) (cover_all : bool) :
  0 <= in_dim -> 0 <= kernel_size <= INT64_MAX -> 0 <= pad -> 0 < stride ->
  in_dim + 2 * pad + stride <= INT64_MAX ->
  GetConvOutDim in_dim kernel_size stride pad cover_all =
  Ok (Z.quot (in_dim + 2 * pad - kernel_size
              + (if cover_all then stride - 1 else 0)) stride + 1).
Proof.
  intros Hin Hk Hp Hs Hmax. unfold GetConvOutDim.
  destruct cover_all; int64_exact.
  - rewrite div64_exact by (unfold INT64_MIN, INT64_MAX in *; lia). cbn [rbind].
    pose proof (quot_bounds (in_dim + pad * 2 - kernel_size + stride - 1) stride Hs).
    int64_exact.
    match goal with
    | |- Ok (Z.quot ?x _ + 1) = Ok (Z.quot ?y _ + 1) => replace x with y by lia
    end. reflexivity.
  - rewrite div64_exact by (unfold INT64_MIN, INT64_MAX in *; lia). cbn [rbind].
    pose proof (quot_bounds (in_dim + pad * 2 - kernel_size) stride Hs).
    int64_exact.
    match goal with
    | |- Ok (Z.quot ?x _ + 1) = Ok (Z.quot ?y _ + 1) => replace x with y by lia
    end. reflexivity.
Qed.

(** Exact value of [GetConvTransposeOutDim] when nothing overflows. *)
Lemma GetConvTransposeOutDim_exact (in_dim kernel_size stride pad : Z) (cover_all : bool) :
  0 <= kernel_size -> 0 <= pad -> 0 < stride ->
  INT64_MIN <= in_dim - 1 <= INT64_MAX ->
  INT64_MIN <= stride * (in_dim - 1) - (if cover_all then stride else 0) - 2 * pad ->
  stride * (in_dim - 1) + kernel_size + 1 <= INT64_MAX ->
  2 * pad <= INT64_MAX ->
  GetConvTransposeOutDim in_dim kernel_size stride pad cover_all =
  stride * (in_dim - 1) + kernel_size - (if cover_all then stride - 1 else 0) - 2 * pad.
Proof.
  intros Hk Hp Hs Hin Hlo Hhi Hpp. unfold GetConvTransposeOutDim.
  destruct cover_all; int64_exact; lia.
Qed.

(** ** Arithmetic modulo [2 ^ 64] *)

Lemma eqm64_refl (x : Z) : eqm64 x x.
Proof.
  exists 0. lia.
Qed.

Lemma eqm64_to_int64 (x y : Z) : eqm64 x y -> eqm64 (to_int64 x) y.
Proof.
  intros [k ->]. exists (k - ((y + k * 2 ^ 64 + 2 ^ 63) / 2 ^ 64)).
  unfold to_int64.
  pose proof (Z.div_mod (y + k * 2 ^ 64 + 2 ^ 63) (2 ^ 64) ltac:(lia)). lia.
Qed.

Lemma eqm64_add (a a' b b' : Z) : eqm64 a a' -> eqm64 b b' -> eqm64 (a + b) (a' + b').
Proof.
  intros [k ->] [l ->]. exists (k + l). lia.
Qed.

Lemma eqm64_sub (a a' b b' : Z) : eqm64 a a' -> eqm64 b b' -> eqm64 (a - b) (a' - b').
Proof.
  intros [k ->] [l ->]. exists (k - l). lia.
Qed.

Lemma eqm64_mul (a a' b b' : Z) : eqm64 a a' -> eqm64 b b' -> eqm64 (a * b) (a' * b').
Proof.
  intros [k ->] [l ->]. exists (a' * l + k * b' + k * l * 2 ^ 64). ring.
Qed.

Lemma to_int64_eqm64 (x y : Z) : eqm64 x y -> to_int64 x = to_int64 y.
Proof.
  intros [k ->]. unfold to_int64. f_equal.
  replace (y + k * 2 ^ 64 + 2 ^ 63) with (y + 2 ^ 63 + k * 2 ^ 64) by lia.
  apply Z_mod_plus_full.
Qed.

Lemma to_int64_range (a : Z) : INT64_MIN <= to_int64 a <= INT64_MAX.
Proof.
  unfold to_int64, INT64_MIN, INT64_MAX.
  pose proof (Z.mod_pos_bound (a + 2 ^ 63) (2 ^ 64) ltac:(lia)). lia.
Qed.

(** Erases the reductions inside an exact expression, up to [eqm64]. *)
Ltac eqm64_erase :=
  repeat first [ apply eqm64_to_int64
               | eapply eqm64_sub
               | eapply eqm64_add
               | eapply eqm64_mul
               | apply eqm64_refl ].

(** The dividend of [GetConvOutDim] is computed without division, so it is
    the exact dividend reduced once to [int64_t]. *)
Lemma GetConvOutDim_dividend (in_dim kernel_size stride pad : Z) (cover_all : bool) :
  (if cover_all
   then sub64 (add64 (sub64 (add64 in_dim (mul64 pad 2)) kernel_size) stride) 1
   else sub64 (add64 in_dim (mul64 pad 2)) kernel_size) =
  to_int64 (in_dim + 2 * pad - kernel_size + (if cover_all then stride - 1 else 0)).
Proof.
  unfold add64, sub64, mul64.
  destruct cover_all;
    (etransitivity; [apply to_int64_eqm64; eqm64_erase |]); f_equal; ring.
Qed.

(** [GetConvOutDim] is exact as soon as its dividend and its result fit in
    [int64_t]. *)
Lemma GetConvOutDim_fits (in_dim kernel_size stride pad : Z) (cover_all : bool) :
  0 < stride ->
  let d := in_dim + 2 * pad - kernel_size + (if cover_all then stride - 1 else 0) in
  INT64_MIN <= d <= INT64_MAX ->
  Z.quot d stride + 1 <= INT64_MAX ->
  GetConvOutDim in_dim kernel_size stride pad cover_all = Ok (Z.quot d stride + 1).
Proof.
  intros Hs d Hd Hq.
  pose proof (GetConvOutDim_dividend in_dim kernel_size stride pad cover_all) as E.
  fold d in E. rewrite (to_int64_small d Hd) in E.
  pose proof (quot_bounds d stride Hs) as Hb.
  unfold GetConvOutDim. destruct cover_all; rewrite E;
    rewrite div64_exact by assumption; cbn [rbind]; unfold add64;
    rewrite to_int64_small by (unfold INT64_MIN, INT64_MAX in *; lia);
    reflexivity.
Qed.

(** [GetConvTransposeOutDim] is exact as soon as its result fits. *)
Lemma GetConvTransposeOutDim_fits (in_dim kernel_size stride pad : Z) (cover_all : bool) :
  let t := stride * (in_dim - 1) + kernel_size
           - (if cover_all then stride - 1 else 0) - 2 * pad in
  INT64_MIN <= t <= INT64_MAX ->
  GetConvTransposeOutDim in_dim kernel_size stride pad cover_all = t.
Proof.
  intros t Ht. rewrite <- (to_int64_small t Ht). unfold t.
  unfold GetConvTransposeOutDim, add64, sub64, mul64.
  destruct cover_all;
    (etransitivity; [apply to_int64_eqm64; eqm64_erase |]); f_equal; ring.
Qed.

(** ** Indexing and loops *)

Lemma to_int8_small (z : Z) : - 128 <= z <= 127 -> to_int8 z = z.
Proof.
  intros H. unfold to_int8. rewrite Z.mod_small; lia.
Qed.

Lemma to_size_t_small (z : Z) : 0 <= z <= INT8_MAX -> to_size_t z = z.
Proof.
  unfold INT8_MAX, to_size_t. intros H. apply Z.mod_small. lia.
Qed.

Lemma at_index_in_range (v : list Z) (i : Z) :
  0 <= i < Z.of_nat (length v) -> exists z, at_index v i = Ok z.
Proof.
  intros H. unfold at_index.
  destruct (Z.ltb_spec i 0) as [Hneg | _]; [lia |].
  destruct (nth_error v (Z.to_nat i)) as [z |] eqn:E; [eauto |].
  apply nth_error_None in E. lia.
Qed.

Lemma at_index_out_of_range (v : list Z) (i : Z) :
  Z.of_nat (length v) <= i -> at_index v i = Err OutOfRange.
Proof.
  intros H. unfold at_index.
  destruct (Z.ltb_spec i 0) as [_ | _]; [reflexivity |].
  destruct (nth_error v (Z.to_nat i)) as [z |] eqn:E; [| reflexivity].
  assert (nth_error v (Z.to_nat i) <> None) as Hlt by congruence.
  apply nth_error_Some in Hlt. lia.
Qed.

Lemma at_index_failure (v : list Z) (i : Z) (e : Failure) :
  at_index v i = Err e -> e = OutOfRange.
Proof.
  unfold at_index. destruct (i <? 0); [congruence |].
  destruct (nth_error v (Z.to_nat i)); congruence.
Qed.

Lemma div64_failure (a b : Z) (e : Failure) :
  div64 a b = Err e ->
  (e = DivisionByZero /\ b = 0) \/
  (e = DivisionOverflow /\ a = INT64_MIN /\ b = -1).
Proof.
  unfold div64. destruct (Z.eqb_spec b 0) as [-> | _].
  - intros [= <-]. left. auto.
  - destruct (Z.eqb_spec a INT64_MIN) as [-> | _]; cbn [andb]; [| discriminate].
    destruct (Z.eqb_spec b (-1)) as [-> | _]; [| discriminate].
    intros [= <-]. right. auto.
Qed.

Lemma GetConvOutDim_failure (a k s p : Z) (c : bool) (e : Failure) :
  GetConvOutDim a k s p c = Err e ->
  (e = DivisionByZero /\ s = 0) \/ (e = DivisionOverflow /\ s = -1).
Proof.
  unfold GetConvOutDim.
  destruct c;
    match goal with
    | |- context [div64 ?x ?y] => destruct (div64 x y) as [q | e'] eqn:E
    end; cbn [rbind]; try discriminate;
    intros [= <-]; apply div64_failure in E; tauto.
Qed.

Lemma zrange_length (lo : Z) (n : nat) : length (zrange lo n) = n.
Proof.
  revert lo. induction n as [| n IH]; intros lo; simpl; [reflexivity |].
  now rewrite IH.
Qed.

Lemma zrange_In (lo : Z) (n : nat) (i : Z) :
  In i (zrange lo n) <-> lo <= i < lo + Z.of_nat n.
Proof.
  revert lo. induction n as [| n IH]; intros lo; simpl.
  - lia.
  - rewrite IH. lia.
Qed.

Lemma zrange_app (lo : Z) (n m : nat) :
  zrange lo (n + m) = zrange lo n ++ zrange (lo + Z.of_nat n) m.
Proof.
  revert lo. induction n as [| n IH]; intros lo.
  - simpl. now rewrite Z.add_0_r.
  - cbn [Nat.add zrange app]. rewrite IH. do 3 f_equal. lia.
Qed.

Lemma for_range_In (lo hi i : Z) : In i (for_range lo hi) <-> lo <= i < hi.
Proof.
  unfold for_range. rewrite zrange_In. lia.
Qed.

Lemma emplace_each_total (body : Z -> Result Z) (idx : list Z) :
  (forall i, In i idx -> exists v, body i = Ok v) ->
  exists vs, emplace_each body idx = Ok vs.
Proof.
  induction idx as [| i rest IH]; intros Hbody; simpl.
  - eauto.
  - destruct (Hbody i (or_introl eq_refl)) as [v ->].
    destruct IH as [vs ->]; [intros j Hj; apply Hbody; now right |].
    cbn [rbind]. eauto.
Qed.

Lemma emplace_each_entries (body : Z -> Result Z) (idx : list Z) (vs : StackVector) :
  emplace_each body idx = Ok vs ->
  length vs = length idx /\
  forall k i, nth_error idx k = Some i ->
              exists v, body i = Ok v /\ nth_error vs k = Some v.
Proof.
  revert vs. induction idx as [| i rest IH]; intros vs; simpl.
  - intros [= <-]. split; [reflexivity |]. intros [| k] j; discriminate.
  - destruct (body i) as [v | e] eqn:Ev; cbn [rbind]; [| discriminate].
    destruct (emplace_each body rest) as [vs' | e] eqn:Evs; cbn [rbind];
      [| discriminate].
    intros [= <-]. destruct (IH vs' eq_refl) as [Hlen Hnth].
    split; [simpl; now rewrite Hlen |].
    intros [| k] j; simpl.
    + intros [= <-]. eauto.
    + apply Hnth.
Qed.

Lemma emplace_each_failure (body : Z -> Result Z) (idx : list Z) (e : Failure) :
  (forall i e', body i = Err e' -> e' = OutOfRange) ->
  emplace_each body idx = Err e -> e = OutOfRange.
Proof.
  intros Hbody. induction idx as [| i rest IH]; simpl; [discriminate |].
  destruct (body i) as [v | e'] eqn:Ev; cbn [rbind].
  - destruct (emplace_each body rest) as [vs | e'']; cbn [rbind]; [discriminate |].
    intros [= <-]. now apply IH.
  - intros [= <-]. eapply Hbody, Ev.
Qed.

Lemma zrange_nth_error (lo : Z) (n k : nat) :
  (k < n)%nat -> nth_error (zrange lo n) k = Some (lo + Z.of_nat k).
Proof.
  revert lo k. induction n as [| n IH]; intros lo k Hk; [lia |].
  destruct k as [| k]; simpl.
  - f_equal. lia.
  - rewrite IH by lia. f_equal. lia.
Qed.

Lemma at_index_nth_error (v : list Z) (i z : Z) :
  0 <= i -> nth_error v (Z.to_nat i) = Some z -> at_index v i = Ok z.
Proof.
  intros Hi E. unfold at_index.
  destruct (Z.ltb_spec i 0); [lia |]. now rewrite E.
Qed.

Lemma bias_axes_In (n i : Z) : In i (bias_axes n) <-> i = 0 \/ 2 <= i < n.
Proof.
  unfold bias_axes. cbn [In]. rewrite for_range_In. intuition auto.
Qed.

(** ** The routines *)

Section RoutineFacts.

Context {R : Runtime}.

Lemma registers_SetUpOpNodes (g : Graph R) (name : string) (inputs : list Array)
    (out : Array) (fns : list (BackwardFunction R)) (k : nat) (a : Array)
    (f : BackwardFunction R) :
  length inputs = length fns ->
  nth_error inputs k = Some a -> nth_error fns k = Some f ->
  registers g (SetUpOpNodes name inputs out fns g) name out k a f.
Proof.
  intros Hlen Ha Hf. unfold registers, SetUpOpNodes.
  eexists. split; [reflexivity |]. cbn. auto.
Qed.

Lemma assert_Ok (b : bool) (u : unit) : assert b = Ok u -> b = true.
Proof.
  destruct b; [reflexivity | discriminate].
Qed.

(** What a returning call of [ConvGradW] has checked and registered. *)
Lemma ConvGradW_inv (w_dtype : Dtype) (w_shape : Shape) (x gy : Array)
    (stride pad : StackVector) (cover_all : bool) (g g' : Graph R) (out : Array) :
  ConvGradW w_dtype w_shape x gy stride pad cover_all g = Ok (out, g') ->
  let n := to_int8 (ndim w_shape - 2) in
  0 < n /\ ndim (shape x) = n + 2 /\ ndim (shape gy) = n + 2 /\
  size stride = to_size_t n /\ size pad = to_size_t n /\
  out = DeviceConvGradWeight w_dtype w_shape x gy stride pad cover_all /\
  g' = SetUpOpNodes "conv-grad-weight"%string [x; gy] out
         [ConvGradW_x_backward (shape x) gy stride pad;
          ConvGradW_gy_backward x stride pad cover_all] g.
Proof.
  intros H n. unfold ConvGradW in H. cbv zeta in H. fold n in H.
  destruct (Z.ltb_spec 0 n) as [H1 | H1]; cbn [assert rbind] in H; [| discriminate].
  destruct (Z.eqb_spec (ndim (shape x)) (n + 2)) as [H2 | H2];
    cbn [assert rbind] in H; [| discriminate].
  destruct (Z.eqb_spec (ndim (shape gy)) (n + 2)) as [H3 | H3];
    cbn [assert rbind] in H; [| discriminate].
  destruct (Z.eqb_spec (size stride) (to_size_t n)) as [H4 | H4];
    cbn [assert rbind] in H; [| discriminate].
  destruct (Z.eqb_spec (size pad) (to_size_t n)) as [H5 | H5];
    cbn [assert rbind] in H; [| discriminate].
  injection H as <- <-. repeat split; assumption.
Qed.

(** [ConvGradW] stops at the first assertion that does not hold and
    otherwise returns. *)
Lemma ConvGradW_cases (w_dtype : Dtype) (w_shape : Shape) (x gy : Array)
    (stride pad : StackVector) (cover_all : bool) (g : Graph R) :
  let n := to_int8 (ndim w_shape - 2) in
  (0 < n /\ ndim (shape x) = n + 2 /\ ndim (shape gy) = n + 2 /\
   size stride = to_size_t n /\ size pad = to_size_t n /\
   ConvGradW w_dtype w_shape x gy stride pad cover_all g =
   Ok (DeviceConvGradWeight w_dtype w_shape x gy stride pad cover_all,
       SetUpOpNodes "conv-grad-weight"%string [x; gy]
         (DeviceConvGradWeight w_dtype w_shape x gy stride pad cover_all)
         [ConvGradW_x_backward (shape x) gy stride pad;
          ConvGradW_gy_backward x stride pad cover_all] g))
  \/
  (~ (0 < n /\ ndim (shape x) = n + 2 /\ ndim (shape gy) = n + 2 /\
      size stride = to_size_t n /\ size pad = to_size_t n) /\
   ConvGradW w_dtype w_shape x gy stride pad cover_all g = Err AssertionFailure).
Proof.
  intros n. unfold ConvGradW. cbv zeta. fold n.
  destruct (Z.ltb_spec 0 n) as [H1 | H1]; cbn [assert rbind];
    [| right; split; [lia | reflexivity]].
  destruct (Z.eqb_spec (ndim (shape x)) (n + 2)) as [H2 | H2]; cbn [assert rbind];
    [| right; split; [tauto | reflexivity]].
  destruct (Z.eqb_spec (ndim (shape gy)) (n + 2)) as [H3 | H3]; cbn [assert rbind];
    [| right; split; [tauto | reflexivity]].
  destruct (Z.eqb_spec (size stride) (to_size_t n)) as [H4 | H4]; cbn [assert rbind];
    [| right; split; [tauto | reflexivity]].
  destruct (Z.eqb_spec (size pad) (to_size_t n)) as [H5 | H5]; cbn [assert rbind];
    [| right; split; [tauto | reflexivity]].
  left. repeat split; assumption.
Qed.

Lemma real_out_size_of_failure (n : Z) (x_shape w_shape : Shape)
    (stride pad : StackVector) (out_size : option StackVector) (e : Failure) :
  real_out_size_of n x_shape w_shape stride pad out_size = Err e -> e = OutOfRange.
Proof.
  destruct out_size as [s |]; cbn [real_out_size_of]; [discriminate |].
  apply emplace_each_failure. intros i e'.
  destruct (at_index x_shape (i + 2)) eqn:E1; cbn [rbind];
    [| intros [= <-]; eapply at_index_failure, E1].
  destruct (at_index w_shape (i + 2)) eqn:E2; cbn [rbind];
    [| intros [= <-]; eapply at_index_failure, E2].
  destruct (at_index stride i) eqn:E3; cbn [rbind];
    [| intros [= <-]; eapply at_index_failure, E3].
  destruct (at_index pad i) eqn:E4; cbn [rbind];
    [discriminate | intros [= <-]; eapply at_index_failure, E4].
Qed.

Lemma cover_all_test_failure (x_shape w_shape : Shape)
    (real_out_size stride pad : StackVector) (i : Z) (e : Failure) :
  cover_all_test x_shape w_shape real_out_size stride pad i = Err e ->
  e <> AssertionFailure.
Proof.
  unfold cover_all_test.
  destruct (at_index x_shape i) eqn:E1; cbn [rbind];
    [| intros [= <-]; apply at_index_failure in E1; congruence].
  destruct (at_index real_out_size i) eqn:E2; cbn [rbind];
    [| intros [= <-]; apply at_index_failure in E2; congruence].
  destruct (at_index w_shape (i + 2)) eqn:E3; cbn [rbind];
    [| intros [= <-]; apply at_index_failure in E3; congruence].
  destruct (at_index stride i) eqn:E4; cbn [rbind];
    [| intros [= <-]; apply at_index_failure in E4; congruence].
  destruct (at_index pad i) eqn:E5; cbn [rbind];
    [| intros [= <-]; apply at_index_failure in E5; congruence].
  destruct (GetConvOutDim _ _ _ _ _) eqn:E6; cbn [rbind];
    [discriminate |].
  intros [= <-]. apply GetConvOutDim_failure in E6.
  destruct E6 as [[-> _] | [-> _]]; discriminate.
Qed.

Lemma detect_cover_all_loop_failure (x_shape w_shape : Shape)
    (real_out_size stride pad : StackVector) (idx : list Z) (e : Failure) :
  detect_cover_all_loop x_shape w_shape real_out_size stride pad idx = Err e ->
  e <> AssertionFailure.
Proof.
  induction idx as [| i rest IH]; simpl; [discriminate |].
  destruct (cover_all_test x_shape w_shape real_out_size stride pad i)
    as [[|] | e'] eqn:E; cbn [rbind].
  - discriminate.
  - exact IH.
  - intros [= <-]. eapply cover_all_test_failure, E.
Qed.

(** What a returning call of [ConvTranspose] has computed and registered. *)
Lemma ConvTranspose_inv (x w : Array) (b : option Array) (stride pad : StackVector)
    (out_size : option StackVector) (g g' : Graph R) (out : Array) :
  ConvTranspose x w b stride pad out_size g = Ok (out, g') ->
  exists real_out_size cover_all,
    real_out_size_of (to_int8 (ndim (shape x) - 2)) (shape x) (shape w)
                     stride pad out_size = Ok real_out_size /\
    detect_cover_all (shape x) (shape w) real_out_size stride pad = Ok cover_all /\
    out = DeviceConvTranspose x w b stride pad real_out_size /\
    g' = SetUpOpNodes "conv_transpose"%string
           (x :: w :: match b with Some b' => [b'] | None => [] end) out
           (ConvTranspose_x_backward (shape x) w stride pad cover_all
            :: ConvTranspose_w_backward (dtype w) (shape w) x stride pad cover_all
            :: match b with Some _ => [ConvTranspose_b_backward] | None => [] end) g.
Proof.
  unfold ConvTranspose. intros H.
  destruct (real_out_size_of _ _ _ _ _ _) as [ros | e] eqn:Eros; cbn [rbind] in H;
    [| discriminate].
  destruct (detect_cover_all _ _ _ _ _) as [c | e] eqn:Ec; cbn [rbind] in H;
    [| discriminate].
  exists ros, c. destruct b as [b' |]; injection H as <- <-; auto.
Qed.

(** [ConvTranspose] has no assertion of its own. *)
Lemma ConvTranspose_failure (x w : Array) (b : option Array) (stride pad : StackVector)
    (out_size : option StackVector) (g : Graph R) (e : Failure) :
  ConvTranspose x w b stride pad out_size g = Err e -> e <> AssertionFailure.
Proof.
  unfold ConvTranspose.
  destruct (real_out_size_of _ _ _ _ _ _) as [ros | e'] eqn:Eros; cbn [rbind].
  - destruct (detect_cover_all _ _ _ _ _) as [c | e'] eqn:Ec; cbn [rbind].
    + destruct b; discriminate.
    + intros [= <-]. eapply detect_cover_all_loop_failure, Ec.
  - intros [= <-]. apply real_out_size_of_failure in Eros. congruence.
Qed.

Lemma spatial_dims_Ok (s : Shape) : 2 <= ndim s -> spatial_dims s = Ok (skipn 2 s).
Proof.
  intros H. unfold spatial_dims.
  destruct (Z.leb_spec 2 (ndim s)); [reflexivity | lia].
Qed.

Lemma size_skipn_2 (s : Shape) : 2 <= ndim s -> size (skipn 2 s) = ndim s - 2.
Proof.
  unfold size, ndim. intros H. rewrite length_skipn. lia.
Qed.

End RoutineFacts.

(** ** The cover_all detection loop *)

Lemma cover_all_test_out_of_range (x_shape w_shape : Shape)
    (real_out_size stride pad : StackVector) (i : Z) :
  size real_out_size <= i \/ size stride <= i \/ size pad <= i ->
  cover_all_test x_shape w_shape real_out_size stride pad i = Err OutOfRange.
Proof.
  intros H. unfold cover_all_test, size in *.
  destruct (at_index x_shape i) as [xdim | e] eqn:E1; cbn [rbind];
    [| apply at_index_failure in E1; congruence].
  destruct (at_index real_out_size i) as [k | e] eqn:E2; cbn [rbind];
    [| apply at_index_failure in E2; congruence].
  destruct (at_index w_shape (i + 2)) as [s | e] eqn:E3; cbn [rbind];
    [| apply at_index_failure in E3; congruence].
  destruct (at_index stride i) as [p | e] eqn:E4; cbn [rbind];
    [| apply at_index_failure in E4; congruence].
  destruct (at_index pad i) as [c | e] eqn:E5; cbn [rbind];
    [| apply at_index_failure in E5; congruence].
  destruct H as [H | [H | H]]; apply at_index_out_of_range in H; congruence.
Qed.

Lemma detect_cover_all_loop_no_break (x_shape w_shape : Shape)
    (real_out_size stride pad : StackVector) (idx rest : list Z) :
  (forall i, In i idx ->
             cover_all_test x_shape w_shape real_out_size stride pad i = Ok false) ->
  detect_cover_all_loop x_shape w_shape real_out_size stride pad (idx ++ rest) =
  detect_cover_all_loop x_shape w_shape real_out_size stride pad rest.
Proof.
  induction idx as [| i idx IH]; intros Hall; [reflexivity |].
  cbn [app detect_cover_all_loop].
  rewrite (Hall i (or_introl eq_refl)). cbn [rbind].
  apply IH. intros j Hj. apply Hall. now right.
Qed.

Lemma detect_cover_all_reaches_end (x_shape w_shape : Shape)
    (real_out_size stride pad : StackVector) :
  2 <= ndim x_shape ->
  size real_out_size = ndim x_shape - 2 ->
  (forall i, 0 <= i < ndim x_shape - 2 ->
             cover_all_test x_shape w_shape real_out_size stride pad i = Ok false) ->
  detect_cover_all x_shape w_shape real_out_size stride pad = Err OutOfRange.
Proof.
  intros Hx Hros Hall. unfold detect_cover_all, for_range.
  replace (Z.to_nat (ndim x_shape - 0))
    with (Z.to_nat (ndim x_shape - 2) + 2)%nat by lia.
  rewrite zrange_app, detect_cover_all_loop_no_break.
  - cbn [zrange detect_cover_all_loop].
    rewrite cover_all_test_out_of_range by lia. reflexivity.
  - intros i Hi. apply zrange_In in Hi. apply Hall. lia.
Qed.

Lemma detect_cover_all_loop_false (x_shape w_shape : Shape)
    (real_out_size stride pad : StackVector) (idx : list Z) :
  detect_cover_all_loop x_shape w_shape real_out_size stride pad idx = Ok false ->
  forall i, In i idx ->
            cover_all_test x_shape w_shape real_out_size stride pad i = Ok false.
Proof.
  induction idx as [| j idx IH]; intros H i Hi; [destruct Hi |].
  cbn [detect_cover_all_loop] in H.
  destruct (cover_all_test x_shape w_shape real_out_size stride pad j)
    as [[|] | e] eqn:E; cbn [rbind] in H; try discriminate.
  destruct Hi as [<- | Hi]; [exact E | now apply IH].
Qed.

(** On a call with one output size per spatial axis the loop cannot run to
    its end: it never leaves [cover_all] at [false]. *)
Lemma detect_cover_all_never_false (x_shape w_shape : Shape)
    (real_out_size stride pad : StackVector) :
  2 <= ndim x_shape ->
  size real_out_size = ndim x_shape - 2 ->
  detect_cover_all x_shape w_shape real_out_size stride pad <> Ok false.
Proof.
  intros Hx Hros H.
  pose proof (detect_cover_all_loop_false _ _ _ _ _ _ H (ndim x_shape - 2)) as Hi.
  rewrite cover_all_test_out_of_range in Hi by lia.
  discriminate Hi. apply for_range_In. lia.
Qed.

(** ** Dimension arithmetic: the formulas and the round trip *)

(** C3, as stated, fails: the operands [in = 1], [kernel = 4], [stride = 2],
    [pad = 0] are non-negative and without [cover_all] the code returns
    [(1 - 4) / 2 + 1 = 0], the quotient truncating toward zero, where
    [floor_div (1 - 4) 2 + 1 = -1]; with [kernel = 3] and [cover_all] it
    returns [(1 - 3 + 2 - 1) / 2 + 1 = 1] where [ceil_div (1 - 3) 2 + 1 = 0]. *)
Lemma GetConvOutDim_truncates_negative_dividend :
  0 <= 1 /\ 0 <= 4 /\ 0 <= 0 /\ 0 < 2 /\
  GetConvOutDim 1 4 2 0 false = Ok 0 /\
  floor_div (1 + 2 * 0 - 4) 2 + 1 = -1 /\
  GetConvOutDim 1 4 2 0 false <> Ok (floor_div (1 + 2 * 0 - 4) 2 + 1) /\
  GetConvOutDim 1 3 2 0 true = Ok 1 /\
  ceil_div (1 + 2 * 0 - 3) 2 + 1 = 0 /\
  GetConvOutDim 1 3 2 0 true <> Ok (ceil_div (1 + 2 * 0 - 3) 2 + 1).
Proof.
  repeat split; try lia; try reflexivity; vm_compute; discriminate.
Qed.

(** C3, amended. For non-negative [in_dim], [kernel_size], [pad] and positive
    [stride], [GetConvOutDim] returns
    [(in + 2*pad - kernel + stride - 1) / stride + 1] when [cover_all] is set
    and [(in + 2*pad - kernel) / stride + 1] otherwise, the division
    truncating toward zero, whenever the dividend and the result fit in
    [int64_t]; the first is [ceil_div (in + 2*pad - kernel) stride + 1] when
    its dividend [in + 2*pad - kernel + stride - 1] is non-negative, the
    second [floor_div (in + 2*pad - kernel) stride + 1] when its dividend
    [in + 2*pad - kernel] is non-negative.  [GetConvTransposeOutDim] returns
    [stride*(in-1) + kernel - stride + 1 - 2*pad] when [cover_all] is set and
    [stride*(in-1) + kernel - 2*pad] otherwise, whenever that value fits in
    [int64_t]. *)
Theorem GetConvOutDim_GetConvTransposeOutDim_formulas
    (in_dim kernel_size stride pad : Z) :
  0 <= in_dim -> 0 <= kernel_size -> 0 <= pad -> 0 < stride ->
  let a := in_dim + 2 * pad - kernel_size in
  (INT64_MIN <= a + stride - 1 <= INT64_MAX ->
   Z.quot (a + stride - 1) stride + 1 <= INT64_MAX ->
   GetConvOutDim in_dim kernel_size stride pad true =
     Ok (Z.quot (a + stride - 1) stride + 1) /\
   (0 <= a + stride - 1 ->
    GetConvOutDim in_dim kernel_size stride pad true =
      Ok (ceil_div a stride + 1))) /\
  (INT64_MIN <= a <= INT64_MAX ->
   Z.quot a stride + 1 <= INT64_MAX ->
   GetConvOutDim in_dim kernel_size stride pad false = Ok (Z.quot a stride + 1) /\
   (0 <= a ->
    GetConvOutDim in_dim kernel_size stride pad false =
      Ok (floor_div a stride + 1))) /\
  (INT64_MIN <= stride * (in_dim - 1) + kernel_size - stride + 1 - 2 * pad
   <= INT64_MAX ->
   GetConvTransposeOutDim in_dim kernel_size stride pad true =
     stride * (in_dim - 1) + kernel_size - stride + 1 - 2 * pad) /\
  (INT64_MIN <= stride * (in_dim - 1) + kernel_size - 2 * pad <= INT64_MAX ->
   GetConvTransposeOutDim in_dim kernel_size stride pad false =
     stride * (in_dim - 1) + kernel_size - 2 * pad).
Proof.
  intros Hin Hk Hp Hs a.
  split; [| split; [| split]].
  - intros Hd Hq.
    assert (Et : GetConvOutDim in_dim kernel_size stride pad true =
                 Ok (Z.quot (a + stride - 1) stride + 1)).
    { pose proof (GetConvOutDim_fits in_dim kernel_size stride pad true Hs) as F.
      cbv beta iota zeta in F. fold a in F.
      replace (a + (stride - 1)) with (a + stride - 1) in F by lia.
      exact (F Hd Hq). }
    split; [exact Et |].
    intros Hnn. rewrite Et. do 2 f_equal. apply ceil_div_quot; lia.
  - intros Hd Hq.
    assert (Ef : GetConvOutDim in_dim kernel_size stride pad false =
                 Ok (Z.quot a stride + 1)).
    { pose proof (GetConvOutDim_fits in_dim kernel_size stride pad false Hs) as F.
      cbv beta iota zeta in F. fold a in F. rewrite Z.add_0_r in F.
      exact (F Hd Hq). }
    split; [exact Ef |].
    intros Hnn. rewrite Ef. unfold floor_div.
    rewrite quot_nonneg_div by lia. reflexivity.
  - intros Ht.
    pose proof (GetConvTransposeOutDim_fits in_dim kernel_size stride pad true) as F.
    cbv beta iota zeta in F.
    replace (stride * (in_dim - 1) + kernel_size - (stride - 1) - 2 * pad)
      with (stride * (in_dim - 1) + kernel_size - stride + 1 - 2 * pad) in F by lia.
    exact (F Ht).
  - intros Ht.
    pose proof (GetConvTransposeOutDim_fits in_dim kernel_size stride pad false) as F.
    cbv beta iota zeta in F. rewrite Z.sub_0_r in F. exact (F Ht).
Qed.

Lemma GetConvOutDim_GetConvTransposeOutDim_formulas_witness :
  GetConvOutDim 8 3 2 1 true = Ok (ceil_div (8 + 2 * 1 - 3) 2 + 1) /\
  GetConvOutDim 8 3 2 1 false = Ok (floor_div (8 + 2 * 1 - 3) 2 + 1) /\
  GetConvTransposeOutDim 8 3 2 1 true = 2 * (8 - 1) + 3 - 2 + 1 - 2 * 1 /\
  GetConvTransposeOutDim 8 3 2 1 false = 2 * (8 - 1) + 3 - 2 * 1.
Proof.
  destruct (GetConvOutDim_GetConvTransposeOutDim_formulas 8 3 2 1)
    as (Hceil & Hfloor & Ht & Hf); try lia.
  split; [apply Hceil; vm_compute; try split; discriminate |].
  split; [apply Hfloor; vm_compute; try split; discriminate |].
  split; [apply Ht | apply Hf]; vm_compute; split; discriminate.
Defined.

(** C2, as stated, fails: with [in = 4], [kernel = 3], [stride = 2], [pad = 0]
    and [cover_all = false] the convolution output size is [1], and the
    transposed formula maps it back to [3], not [4]. *)
Lemma ConvRoundTrip_not_identity :
  valid_args 4 3 2 0 /\
  GetConvOutDim 4 3 2 0 false = Ok 1 /\
  ConvRoundTrip 4 3 2 0 false = Ok 3 /\
  ConvRoundTrip 4 3 2 0 false <> Ok 4.
Proof.
  unfold valid_args. repeat split; try lia; try reflexivity.
  vm_compute. discriminate.
Qed.

(** C2, amended. For valid arguments (and no [int64_t] overflow) the round
    trip returns [in] less the remainder the convolution dropped:
    [in - (in + 2*pad - kernel) mod stride] without [cover_all] and
    [in - (in + 2*pad - kernel - 1) mod stride] with it; so it returns [in]
    exactly when [stride] divides [in + 2*pad - kernel], respectively
    [in + 2*pad - kernel - 1]. *)
Theorem ConvRoundTrip_iff_divides
    (in_dim kernel_size stride pad : Z) (cover_all : bool) :
  valid_args in_dim kernel_size stride pad ->
  in_dim + 2 * pad + stride <= INT64_MAX ->
  let a := in_dim + 2 * pad - kernel_size - (if cover_all then 1 else 0) in
  ConvRoundTrip in_dim kernel_size stride pad cover_all = Ok (in_dim - a mod stride) /\
  (ConvRoundTrip in_dim kernel_size stride pad cover_all = Ok in_dim <->
   (stride | a)).
Proof.
  intros (Hin & Hk & Hs & Hp & Hfit) Hmax a.
  assert (Hval : ConvRoundTrip in_dim kernel_size stride pad cover_all =
                 Ok (in_dim - a mod stride)).
  { unfold ConvRoundTrip. rewrite GetConvOutDim_exact by lia. cbn [rbind].
    set (n := in_dim + 2 * pad - kernel_size + (if cover_all then stride - 1 else 0)).
    assert (Hn : 0 <= n) by (subst n; destruct cover_all; lia).
    rewrite quot_nonneg_div by lia.
    pose proof (Z.div_mod n stride ltac:(lia)) as Ediv.
    pose proof (Z.mod_pos_bound n stride ltac:(lia)) as Hr.
    pose proof (div_bounds n stride Hn ltac:(lia)) as Hq.
    assert (Emod : n mod stride = a mod stride).
    { subst n a. destruct cover_all.
      - replace (in_dim + 2 * pad - kernel_size + (stride - 1))
          with (in_dim + 2 * pad - kernel_size - 1 + 1 * stride) by lia.
        apply Z_mod_plus_full.
      - f_equal; lia. }
    rewrite GetConvTransposeOutDim_exact;
      [ f_equal; rewrite <- Emod; subst n; destruct cover_all; lia
      | subst n; destruct cover_all; unfold INT64_MIN, INT64_MAX in *; lia .. ]. }
  split; [exact Hval |].
  rewrite Hval. pose proof (Z.mod_divide a stride ltac:(lia)) as Hdiv.
  split.
  - intros E. apply Hdiv. injection E. lia.
  - intros D. apply Hdiv in D. rewrite D. f_equal. lia.
Qed.

Lemma ConvRoundTrip_iff_divides_witness :
  valid_args 5 3 2 0 /\
  ConvRoundTrip 5 3 2 0 false = Ok (5 - (5 + 2 * 0 - 3 - 0) mod 2) /\
  (ConvRoundTrip 5 3 2 0 false = Ok 5 <-> (2 | 5 + 2 * 0 - 3 - 0)).
Proof.
  assert (V : valid_args 5 3 2 0) by (unfold valid_args; lia).
  split; [exact V |].
  apply (ConvRoundTrip_iff_divides 5 3 2 0 false V).
  unfold INT64_MAX; lia.
Defined.

(** ** Gradient wiring *)

Section Wiring.

Context {R : Runtime}.

(** C4. Every [Conv] call (on an [x] that has its two leading axes) returns
    the device result and registers for its input [x] a backward function
    which, applied to [gout] and a stop-gradient set, returns
    [ConvTranspose(gout, w.AsConstant(ids), nullopt, stride, pad, out_size)]
    with [out_size] the spatial shape of [x]; in particular, on a ones tensor
    and a weight that the constant view leaves unchanged this is
    [ConvTranspose(ones, w, out_size = x.shape[2:])] with the same stride and
    pad. *)
Theorem Conv_x_backward_is_ConvTranspose (x w : Array) (b : option Array)
    (stride pad : StackVector) (cover_all : bool) (g : Graph R) :
  2 <= ndim (shape x) ->
  exists f g',
    Conv x w b stride pad cover_all g =
      Ok (DeviceConv x w b stride pad cover_all, g') /\
    registers g g' "conv"%string (DeviceConv x w b stride pad cover_all) 0 x f /\
    (forall gout ids g0,
       call_backward f gout ids g0 =
       ConvTranspose gout (AsConstant w ids) None stride pad
                     (Some (skipn 2 (shape x))) g0) /\
    (forall ones ids g0,
       AsConstant w ids = w ->
       call_backward f ones ids g0 =
       ConvTranspose ones w None stride pad (Some (skipn 2 (shape x))) g0).
Proof.
  intros Hx.
  assert (Hcall : forall gout ids g0,
             call_backward (Conv_x_backward (shape x) w stride pad) gout ids g0 =
             ConvTranspose gout (AsConstant w ids) None stride pad
                           (Some (skipn 2 (shape x))) g0).
  { intros gout ids g0. cbn [call_backward].
    rewrite spatial_dims_Ok by exact Hx. reflexivity. }
  exists (Conv_x_backward (shape x) w stride pad).
  unfold Conv. destruct b as [b' |]; eexists; (split; [reflexivity |]);
    (split; [apply registers_SetUpOpNodes; reflexivity |]);
    (split; [exact Hcall |]);
    intros ones ids g0 Hw; rewrite Hcall, Hw; reflexivity.
Qed.

(** C5. Every [ConvGradW] call that returns has registered, for [x], a
    backward function returning
    [ConvTranspose(gy.AsConstant(ids), gout, nullopt, stride, pad, out_size)]
    with [out_size] the spatial shape of [x], and, for [gy], one returning
    [Conv(x.AsConstant(ids), gout, nullopt, stride, pad, cover_all)] with the
    [cover_all] of the call; [gout] is the weight argument of both. *)
Theorem ConvGradW_backward_functions (w_dtype : Dtype) (w_shape : Shape)
    (x gy : Array) (stride pad : StackVector) (cover_all : bool)
    (g g' : Graph R) (out : Array) :
  ConvGradW w_dtype w_shape x gy stride pad cover_all g = Ok (out, g') ->
  exists fx fgy,
    registers g g' "conv-grad-weight"%string out 0 x fx /\
    registers g g' "conv-grad-weight"%string out 1 gy fgy /\
    (forall gout ids g0,
       call_backward fx gout ids g0 =
       ConvTranspose (AsConstant gy ids) gout None stride pad
                     (Some (skipn 2 (shape x))) g0) /\
    (forall gout ids g0,
       call_backward fgy gout ids g0 =
       Conv (AsConstant x ids) gout None stride pad cover_all g0).
Proof.
  intros H. apply ConvGradW_inv in H.
  destruct H as (Hn & Hx & Hgy & Hstride & Hpad & Hout & ->).
  set (n := to_int8 (ndim w_shape - 2)) in *.
  assert (Hn8 : n <= INT8_MAX).
  { unfold n, to_int8, INT8_MAX.
    pose proof (Z.mod_pos_bound (ndim w_shape - 2 + 2 ^ 7) (2 ^ 8)). lia. }
  exists (ConvGradW_x_backward (shape x) gy stride pad),
         (ConvGradW_gy_backward x stride pad cover_all).
  split; [apply registers_SetUpOpNodes; reflexivity |].
  split; [apply registers_SetUpOpNodes; reflexivity |].
  split.
  - intros gout ids g0. cbn [call_backward].
    rewrite spatial_dims_Ok by lia. cbn [rbind].
    rewrite size_skipn_2 by lia.
    rewrite Hstride, to_size_t_small by lia.
    replace (ndim (shape x) - 2 =? n) with true by (symmetry; apply Z.eqb_eq; lia).
    reflexivity.
  - intros gout ids g0. reflexivity.
Qed.

(** C6. Every [ConvTranspose] call that returns has registered, for the
    weight [w], a backward function returning
    [ConvGradW(w.dtype(), w.shape(), gout, x.AsConstant(ids), stride, pad,
    cover_all)] with the [cover_all] the call detected: [gout] first and the
    constant [x] second.  The backward function [Conv] registers for [w] has
    them the other way round:
    [ConvGradW(w.dtype(), w.shape(), x.AsConstant(ids), gout, ...)]. *)
Theorem ConvTranspose_w_backward_swaps_ConvGradW_operands (x w : Array)
    (b : option Array) (stride pad : StackVector) :
  (forall out_size g out g',
     ConvTranspose x w b stride pad out_size g = Ok (out, g') ->
     exists f real_out_size cover_all,
       registers g g' "conv_transpose"%string out 1 w f /\
       real_out_size_of (to_int8 (ndim (shape x) - 2)) (shape x) (shape w)
                        stride pad out_size = Ok real_out_size /\
       detect_cover_all (shape x) (shape w) real_out_size stride pad = Ok cover_all /\
       forall gout ids g0,
         call_backward f gout ids g0 =
         ConvGradW (dtype w) (shape w) gout (AsConstant x ids) stride pad cover_all g0) /\
  (forall cover_all g,
     exists f g',
       Conv x w b stride pad cover_all g =
         Ok (DeviceConv x w b stride pad cover_all, g') /\
       registers g g' "conv"%string (DeviceConv x w b stride pad cover_all) 1 w f /\
       forall gout ids g0,
         call_backward f gout ids g0 =
         ConvGradW (dtype w) (shape w) (AsConstant x ids) gout stride pad cover_all g0).
Proof.
  split.
  - intros out_size g out g' H. apply ConvTranspose_inv in H.
    destruct H as (ros & c & Hros & Hc & Hout & ->).
    exists (ConvTranspose_w_backward (dtype w) (shape w) x stride pad c), ros, c.
    split; [apply registers_SetUpOpNodes; destruct b; reflexivity |].
    split; [exact Hros |]. split; [exact Hc |].
    intros gout ids g0. reflexivity.
  - intros cover_all g.
    exists (Conv_w_backward (dtype w) (shape w) x stride pad cover_all).
    unfold Conv. destruct b as [b' |]; eexists; (split; [reflexivity |]);
      (split; [apply registers_SetUpOpNodes; reflexivity |]);
      intros gout ids g0; reflexivity.
Qed.

End Wiring.

(** ** Bias reduction, output size and preconditions *)

Section Shapes.

Context {R : Runtime}.

(** C7. When a bias is supplied, the backward function that [Conv], and
    every returning [ConvTranspose], registers for it returns
    [Sum(gout, axis, false)] where [axis] holds [0] and every [i] with
    [2 <= i < gout.ndim()]: the batch axis and the spatial axes, not the
    channel axis.  For a gradient of shape [(N, C, H, W)] the axes are
    [(0, 2, 3)] and, [Sum] dropping the reduced axes, the result has shape
    [(C)]. *)
Theorem bias_backward_sums_all_but_channel (x w b : Array) (stride pad : StackVector) :
  (forall cover_all g,
     exists f g',
       Conv x w (Some b) stride pad cover_all g =
         Ok (DeviceConv x w (Some b) stride pad cover_all, g') /\
       registers g g' "conv"%string (DeviceConv x w (Some b) stride pad cover_all) 2 b f /\
       forall gout ids g0,
         call_backward f gout ids g0 =
         Ok (Sum gout (bias_axes (ndim (shape gout))) false, g0)) /\
  (forall out_size g out g',
     ConvTranspose x w (Some b) stride pad out_size g = Ok (out, g') ->
     exists f,
       registers g g' "conv_transpose"%string out 2 b f /\
       forall gout ids g0,
         call_backward f gout ids g0 =
         Ok (Sum gout (bias_axes (ndim (shape gout))) false, g0)) /\
  (forall n i, In i (bias_axes n) <-> i = 0 \/ 2 <= i < n) /\
  (forall gout N C H W,
     shape gout = [N; C; H; W] ->
     bias_axes (ndim (shape gout)) = [0; 2; 3] /\
     ((forall a axes, shape (Sum a axes false) = reduced_shape (shape a) axes) ->
      shape (Sum gout (bias_axes (ndim (shape gout))) false) = [C])).
Proof.
  split; [| split; [| split]].
  - intros cover_all g. exists Conv_b_backward. eexists.
    split; [reflexivity |].
    split; [apply registers_SetUpOpNodes; reflexivity |].
    intros gout ids g0. reflexivity.
  - intros out_size g out g' H. apply ConvTranspose_inv in H.
    destruct H as (ros & c & _ & _ & _ & ->).
    exists ConvTranspose_b_backward.
    split; [apply registers_SetUpOpNodes; reflexivity |].
    intros gout ids g0. reflexivity.
  - exact bias_axes_In.
  - intros gout N C H W Hshape. rewrite Hshape.
    split; [reflexivity |].
    intros Hsum. rewrite Hsum, Hshape. reflexivity.
Qed.

(** C8. Every [ConvTranspose] call (on a shape whose number of axes is an
    [int8_t]) first resolves the output size and hands it to the device: the
    call fails where the resolution fails, and otherwise its result is the
    device result on the resolved size, once the detection loop has run.
    The resolved size is the caller's [out_size], unchanged, when one is
    supplied; otherwise it has one entry per spatial axis [i], equal to
    [GetConvTransposeOutDim(x.shape()[i+2], w.shape()[i+2], stride[i], pad[i],
    false)], and it is computed whenever [w], [stride] and [pad] have those
    entries. *)
Theorem ConvTranspose_real_out_size (x w : Array) (b : option Array)
    (stride pad : StackVector) (out_size : option StackVector) :
  ndim (shape x) <= INT8_MAX ->
  let n := ndim (shape x) - 2 in
  let resolved :=
    real_out_size_of (to_int8 n) (shape x) (shape w) stride pad out_size in
  (forall g,
     ConvTranspose x w b stride pad out_size g =
     (let? real_out_size := resolved in
      let? cover_all :=
        detect_cover_all (shape x) (shape w) real_out_size stride pad in
      let out := DeviceConvTranspose x w b stride pad real_out_size in
      Ok (out,
          SetUpOpNodes "conv_transpose"%string
            (x :: w :: match b with Some b' => [b'] | None => [] end) out
            (ConvTranspose_x_backward (shape x) w stride pad cover_all
             :: ConvTranspose_w_backward (dtype w) (shape w) x stride pad cover_all
             :: match b with Some _ => [ConvTranspose_b_backward] | None => [] end)
            g))) /\
  (forall s, out_size = Some s -> resolved = Ok s) /\
  (out_size = None ->
   forall real_out_size,
     resolved = Ok real_out_size ->
     size real_out_size = Z.max 0 n /\
     forall i, 0 <= i < n ->
       exists xd wd s p,
         at_index (shape x) (i + 2) = Ok xd /\
         at_index (shape w) (i + 2) = Ok wd /\
         at_index stride i = Ok s /\
         at_index pad i = Ok p /\
         at_index real_out_size i = Ok (GetConvTransposeOutDim xd wd s p false)) /\
  (out_size = None ->
   ndim (shape x) <= ndim (shape w) -> n <= size stride -> n <= size pad ->
   exists real_out_size, resolved = Ok real_out_size).
Proof.
  intros Hx8 n resolved.
  assert (En : to_int8 n = n).
  { apply to_int8_small. unfold n, ndim, INT8_MAX in *. lia. }
  split; [| split; [| split]].
  - intros g. unfold ConvTranspose. cbv zeta. fold n. fold resolved.
    destruct resolved as [ros | e]; cbn [rbind]; [| reflexivity].
    destruct (detect_cover_all (shape x) (shape w) ros stride pad) as [c | e];
      cbn [rbind]; [| reflexivity].
    destruct b; reflexivity.
  - intros s ->. reflexivity.
  - unfold resolved. rewrite En.
    intros -> ros Hros. cbn [real_out_size_of] in Hros.
    apply emplace_each_entries in Hros. destruct Hros as [Hlen Hnth].
    unfold for_range in Hlen, Hnth. rewrite zrange_length in Hlen.
    split; [unfold size; lia |].
    intros i Hi.
    destruct (Hnth (Z.to_nat i) i) as (v & Hbody & Hv).
    { rewrite zrange_nth_error by lia. f_equal. lia. }
    destruct (at_index (shape x) (i + 2)) as [xd | e]; cbn [rbind] in Hbody;
      [| discriminate].
    destruct (at_index (shape w) (i + 2)) as [wd | e]; cbn [rbind] in Hbody;
      [| discriminate].
    destruct (at_index stride i) as [s | e]; cbn [rbind] in Hbody; [| discriminate].
    destruct (at_index pad i) as [p | e]; cbn [rbind] in Hbody; [| discriminate].
    injection Hbody as <-.
    exists xd, wd, s, p. repeat split; try reflexivity.
    apply at_index_nth_error; [lia | exact Hv].
  - unfold resolved. rewrite En.
    intros -> Hw Hstride Hpad. cbn [real_out_size_of].
    apply emplace_each_total. intros i Hi. apply for_range_In in Hi.
    destruct (at_index_in_range (shape x) (i + 2)) as [xd ->];
      [unfold n, ndim in *; lia |].
    destruct (at_index_in_range (shape w) (i + 2)) as [wd ->];
      [unfold n, ndim in *; lia |].
    destruct (at_index_in_range stride i) as [s ->]; [unfold size in *; lia |].
    destruct (at_index_in_range pad i) as [p ->]; [unfold size in *; lia |].
    cbn [rbind]. eauto.
Qed.

(** C9. [ConvGradW] (on a weight shape whose number of axes is an [int8_t])
    returns, none of its assertions failing, when the weight shape has at
    least one spatial axis, [x] and [gy] have as many axes as the weight
    shape, and [stride] and [pad] have one entry per spatial axis; the
    assertion inside the backward function it registers for [x] does not
    fail either.  When any of these conditions is violated the call ends in
    an assertion failure. *)
Theorem ConvGradW_preconditions (w_dtype : Dtype) (w_shape : Shape) (x gy : Array)
    (stride pad : StackVector) (cover_all : bool) (g : Graph R) :
  ndim w_shape <= INT8_MAX ->
  let n := ndim w_shape - 2 in
  let preconditions :=
    0 < n /\ ndim (shape x) = ndim w_shape /\ ndim (shape gy) = ndim w_shape /\
    size stride = n /\ size pad = n in
  let out := DeviceConvGradWeight w_dtype w_shape x gy stride pad cover_all in
  (preconditions ->
   exists g' fx,
     ConvGradW w_dtype w_shape x gy stride pad cover_all g = Ok (out, g') /\
     registers g g' "conv-grad-weight"%string out 0 x fx /\
     forall gout ids g0, call_backward fx gout ids g0 <> Err AssertionFailure) /\
  (~ preconditions ->
   ConvGradW w_dtype w_shape x gy stride pad cover_all g = Err AssertionFailure).
Proof.
  intros Hw8 n preconditions out.
  assert (En : to_int8 (ndim w_shape - 2) = n).
  { apply to_int8_small. unfold n, ndim, INT8_MAX in *. lia. }
  pose proof (ConvGradW_cases w_dtype w_shape x gy stride pad cover_all g) as Hcases.
  cbv zeta in Hcases. rewrite En in Hcases.
  assert (Hsz : 0 < n -> to_size_t n = n).
  { intros Hn. apply to_size_t_small. unfold n in *. lia. }
  unfold preconditions. split.
  - intros (Hn & Hx & Hgy & Hstride & Hpad).
    destruct Hcases as [(_ & _ & _ & _ & _ & Hok) | (Hnot & _)].
    + eexists. exists (ConvGradW_x_backward (shape x) gy stride pad).
      split; [exact Hok |].
      split; [apply registers_SetUpOpNodes; reflexivity |].
      intros gout ids g0. cbn [call_backward].
      rewrite spatial_dims_Ok by (unfold n in *; lia). cbn [rbind].
      rewrite size_skipn_2 by (unfold n in *; lia).
      replace (ndim (shape x) - 2 =? size stride) with true
        by (symmetry; apply Z.eqb_eq; unfold n in *; lia).
      cbn [assert rbind].
      destruct (ConvTranspose _ _ _ _ _ _ g0) as [r | e] eqn:E; [discriminate |].
      apply ConvTranspose_failure in E. congruence.
    + exfalso. apply Hnot. rewrite (Hsz Hn). unfold n in *. repeat split; lia.
  - intros Hnot.
    destruct Hcases as [(Hn & Hx & Hgy & Hstride & Hpad & _) | (_ & Hfail)];
      [| exact Hfail].
    exfalso. apply Hnot. rewrite (Hsz Hn) in *. unfold n in *. repeat split; lia.
Qed.

End Shapes.

(** ** Detection of cover_all *)

Section CoverAll.

Context {R : Runtime}.

(** C10. The detection loop of [ConvTranspose] runs [i] from [0] to
    [x.ndim() - 1] and reads [real_out_size[i]], [stride[i]] and [pad[i]],
    which have [x.ndim() - 2] entries: the test at an index past the end of
    any of them is out of range, so a call whose loop has not broken when it
    reaches [i = x.ndim() - 2] ends out of range, and such calls exist.
    Where the reads are in range, the value in the [cover_all] position of
    [GetConvOutDim] is [pad[i]] converted to [bool]. *)
Theorem ConvTranspose_cover_all_loop_out_of_range :
  (forall x_shape i, In i (for_range 0 (ndim x_shape)) <-> 0 <= i < ndim x_shape) /\
  (forall x_shape w_shape real_out_size stride pad i,
     size real_out_size <= i \/ size stride <= i \/ size pad <= i ->
     cover_all_test x_shape w_shape real_out_size stride pad i = Err OutOfRange) /\
  (forall x_shape w_shape real_out_size stride pad,
     2 <= ndim x_shape ->
     size real_out_size = ndim x_shape - 2 ->
     (forall i, 0 <= i < ndim x_shape - 2 ->
        cover_all_test x_shape w_shape real_out_size stride pad i = Ok false) ->
     detect_cover_all x_shape w_shape real_out_size stride pad = Err OutOfRange) /\
  (forall (x w : Array) b stride pad out_size real_out_size (g : Graph R),
     real_out_size_of (to_int8 (ndim (shape x) - 2)) (shape x) (shape w)
                      stride pad out_size = Ok real_out_size ->
     detect_cover_all (shape x) (shape w) real_out_size stride pad = Err OutOfRange ->
     ConvTranspose x w b stride pad out_size g = Err OutOfRange) /\
  (forall x_shape w_shape real_out_size stride pad i xdim k s p c,
     at_index x_shape i = Ok xdim ->
     at_index real_out_size i = Ok k ->
     at_index w_shape (i + 2) = Ok s ->
     at_index stride i = Ok p ->
     at_index pad i = Ok c ->
     cover_all_test x_shape w_shape real_out_size stride pad i =
     (let? d := GetConvOutDim xdim k s p (negb (c =? 0)) in Ok (negb (xdim =? d)))) /\
  (exists x_shape w_shape stride pad real_out_size,
     x_shape = [1; 1; 3; 3] /\ w_shape = [1; 1; 3; 3] /\
     stride = [1; 1] /\ pad = [0; 0] /\
     real_out_size_of (to_int8 (ndim x_shape - 2)) x_shape w_shape stride pad None =
       Ok real_out_size /\
     size real_out_size = ndim x_shape - 2 /\
     size stride = ndim x_shape - 2 /\ size pad = ndim x_shape - 2 /\
     cover_all_test x_shape w_shape real_out_size stride pad 0 = Ok false /\
     cover_all_test x_shape w_shape real_out_size stride pad 1 = Ok false /\
     cover_all_test x_shape w_shape real_out_size stride pad 2 = Err OutOfRange /\
     detect_cover_all x_shape w_shape real_out_size stride pad = Err OutOfRange).
Proof.
  split; [| split; [| split; [| split; [| split]]]].
  - intros x_shape i. apply for_range_In.
  - exact cover_all_test_out_of_range.
  - exact detect_cover_all_reaches_end.
  - intros x w b stride pad out_size ros g Hros Hdetect.
    unfold ConvTranspose. rewrite Hros. cbn [rbind].
    rewrite Hdetect. reflexivity.
  - intros x_shape w_shape ros stride pad i xdim k s p c E1 E2 E3 E4 E5.
    unfold cover_all_test, int64_to_bool.
    rewrite E1, E2, E3, E4, E5. reflexivity.
  - exists [1; 1; 3; 3], [1; 1; 3; 3], [1; 1], [0; 0], [5; 5].
    repeat split; reflexivity.
Qed.

End CoverAll.

(** C1. The flag is not inferred as described.  Take [x] of shape
    [(1, 3, 3, 3)], [w] of shape [(3, 4, 3, 3)], stride [(2, 2)], pad
    [(0, 0)] and the explicit output size [(7, 7)], which is what
    [GetConvTransposeOutDim] with [cover_all = false] gives on each axis and
    which [GetConvOutDim] with [cover_all = false] maps back to [3].  The
    loop compares [x.shape()[i]] for [i = 0, 1, ...] with
    [GetConvOutDim(x.shape()[i], real_out_size[i], w.shape()[i+2], stride[i],
    pad[i])]; at [i = 1] it compares the channel count [3] with [1] and
    sets [cover_all = true]. *)
Theorem ConvTranspose_cover_all_on_exact_out_size :
  let x_shape := [1; 3; 3; 3] in
  let w_shape := [3; 4; 3; 3] in
  let stride := [2; 2] in
  let pad := [0; 0] in
  let x := array_of_shape x_shape in
  let w := array_of_shape w_shape in
  let out := array_of_shape [1; 4; 7; 7] in
  GetConvTransposeOutDim 3 3 2 0 false = 7 /\
  GetConvOutDim 7 3 2 0 false = Ok 3 /\
  real_out_size_of 2 x_shape w_shape stride pad None = Ok [7; 7] /\
  cover_all_test x_shape w_shape [7; 7] stride pad 0 = Ok false /\
  GetConvOutDim 3 7 3 2 false = Ok 1 /\
  cover_all_test x_shape w_shape [7; 7] stride pad 1 = Ok true /\
  detect_cover_all x_shape w_shape [7; 7] stride pad = Ok true /\
  ConvTranspose x w None stride pad (Some [7; 7]) [] =
    Ok (out,
        [ {| op_name := "conv_transpose";
             op_inputs := [x; w];
             op_output := out;
             op_backward :=
               [ ConvTranspose_x_backward x_shape w stride pad true;
                 ConvTranspose_w_backward (dtype w) w_shape x stride pad true ] |} ]).
Proof.
  repeat split; reflexivity.
Qed.

(** ** The properties on concrete calls *)

Lemma Conv_x_backward_is_ConvTranspose_witness :
  let x := array_of_shape [1; 3; 5; 5] in
  let w := array_of_shape [4; 3; 3; 3] in
  let out := DeviceConv x w None [1; 1] [0; 0] false in
  2 <= ndim (shape x) /\
  exists f g',
    Conv x w None [1; 1] [0; 0] false [] = Ok (out, g') /\
    registers [] g' "conv"%string out 0 x f /\
    (forall gout ids g0,
       call_backward f gout ids g0 =
       ConvTranspose gout (AsConstant w ids) None [1; 1] [0; 0]
                     (Some (skipn 2 (shape x))) g0) /\
    (forall ones ids g0,
       AsConstant w ids = w ->
       call_backward f ones ids g0 =
       ConvTranspose ones w None [1; 1] [0; 0] (Some (skipn 2 (shape x))) g0).
Proof.
  intros x w out.
  assert (H : 2 <= ndim (shape x)) by (cbn; lia).
  split; [exact H |].
  exact (Conv_x_backward_is_ConvTranspose x w None [1; 1] [0; 0] false [] H).
Defined.

Lemma ConvGradW_backward_functions_witness :
  let x := array_of_shape [1; 3; 5; 5] in
  let gy := array_of_shape [1; 4; 3; 3] in
  let out := array_of_shape [4; 3; 3; 3] in
  let g' :=
    SetUpOpNodes "conv-grad-weight"%string [x; gy] out
      [ConvGradW_x_backward [1; 3; 5; 5] gy [1; 1] [0; 0];
       ConvGradW_gy_backward x [1; 1] [0; 0] false] [] in
  ConvGradW (dtype x) [4; 3; 3; 3] x gy [1; 1] [0; 0] false [] = Ok (out, g') /\
  exists fx fgy,
    registers [] g' "conv-grad-weight"%string out 0 x fx /\
    registers [] g' "conv-grad-weight"%string out 1 gy fgy /\
    (forall gout ids g0,
       call_backward fx gout ids g0 =
       ConvTranspose (AsConstant gy ids) gout None [1; 1] [0; 0]
                     (Some (skipn 2 (shape x))) g0) /\
    (forall gout ids g0,
       call_backward fgy gout ids g0 =
       Conv (AsConstant x ids) gout None [1; 1] [0; 0] false g0).
Proof.
  intros x gy out g'.
  assert (H : ConvGradW (dtype x) [4; 3; 3; 3] x gy [1; 1] [0; 0] false []
              = Ok (out, g')) by reflexivity.
  split; [exact H |].
  exact (ConvGradW_backward_functions (dtype x) [4; 3; 3; 3] x gy [1; 1] [0; 0] false [] g' out H).
Defined.

Lemma ConvTranspose_w_backward_swaps_ConvGradW_operands_witness :
  let x := array_of_shape [1; 3; 3; 3] in
  let w := array_of_shape [3; 4; 3; 3] in
  let out := array_of_shape [1; 4; 7; 7] in
  let g' :=
    SetUpOpNodes "conv_transpose"%string [x; w] out
      [ConvTranspose_x_backward [1; 3; 3; 3] w [2; 2] [0; 0] true;
       ConvTranspose_w_backward (dtype w) [3; 4; 3; 3] x [2; 2] [0; 0] true] [] in
  ConvTranspose x w None [2; 2] [0; 0] None [] = Ok (out, g') /\
  exists f real_out_size cover_all,
    registers [] g' "conv_transpose"%string out 1 w f /\
    real_out_size_of (to_int8 (ndim (shape x) - 2)) (shape x) (shape w)
                     [2; 2] [0; 0] None = Ok real_out_size /\
    detect_cover_all (shape x) (shape w) real_out_size [2; 2] [0; 0] = Ok cover_all /\
    forall gout ids g0,
      call_backward f gout ids g0 =
      ConvGradW (dtype w) (shape w) gout (AsConstant x ids) [2; 2] [0; 0] cover_all g0.
Proof.
  intros x w out g'.
  assert (H : ConvTranspose x w None [2; 2] [0; 0] None [] = Ok (out, g'))
    by reflexivity.
  split; [exact H |].
  exact (proj1 (ConvTranspose_w_backward_swaps_ConvGradW_operands x w None [2; 2] [0; 0])
               None [] out g' H).
Defined.

Lemma bias_backward_sums_all_but_channel_witness :
  let x := array_of_shape [1; 3; 3; 3] in
  let w := array_of_shape [3; 4; 3; 3] in
  let b := array_of_shape [4] in
  let gout := array_of_shape [1; 4; 7; 7] in
  let g' :=
    SetUpOpNodes "conv_transpose"%string [x; w; b] gout
      [ConvTranspose_x_backward [1; 3; 3; 3] w [2; 2] [0; 0] true;
       ConvTranspose_w_backward (dtype w) [3; 4; 3; 3] x [2; 2] [0; 0] true;
       ConvTranspose_b_backward] [] in
  ConvTranspose x w (Some b) [2; 2] [0; 0] None [] = Ok (gout, g') /\
  (exists f,
     registers [] g' "conv_transpose"%string gout 2 b f /\
     forall gout ids g0,
       call_backward f gout ids g0 =
       Ok (Sum gout (bias_axes (ndim (shape gout))) false, g0)) /\
  bias_axes (ndim (shape gout)) = [0; 2; 3] /\
  shape (Sum gout (bias_axes (ndim (shape gout))) false) = [4].
Proof.
  intros x w b gout g'.
  destruct (bias_backward_sums_all_but_channel x w b [2; 2] [0; 0])
    as (_ & Htranspose & _ & Hshape).
  assert (H : ConvTranspose x w (Some b) [2; 2] [0; 0] None [] = Ok (gout, g'))
    by reflexivity.
  split; [exact H |].
  split; [exact (Htranspose None [] gout g' H) |].
  destruct (Hshape gout 1 4 7 7 eq_refl) as [Haxes Hsum].
  split; [exact Haxes |].
  apply Hsum. intros a axes. reflexivity.
Defined.

Lemma ConvTranspose_real_out_size_witness :
  let x := array_of_shape [1; 3; 3; 3] in
  let w := array_of_shape [3; 4; 3; 3] in
  let fx := ConvTranspose_x_backward [1; 3; 3; 3] w [2; 2] [0; 0] true in
  let fw := ConvTranspose_w_backward (dtype w) [3; 4; 3; 3] x [2; 2] [0; 0] true in
  let computed := DeviceConvTranspose x w None [2; 2] [0; 0] [7; 7] in
  let explicit := DeviceConvTranspose x w None [2; 2] [0; 0] [6; 6] in
  ndim (shape x) <= INT8_MAX /\
  ConvTranspose x w None [2; 2] [0; 0] None [] =
    Ok (computed,
        SetUpOpNodes "conv_transpose"%string [x; w] computed [fx; fw] []) /\
  ConvTranspose x w None [2; 2] [0; 0] (Some [6; 6]) [] =
    Ok (explicit,
        SetUpOpNodes "conv_transpose"%string [x; w] explicit [fx; fw] []) /\
  real_out_size_of (to_int8 (ndim (shape x) - 2)) (shape x) (shape w)
                   [2; 2] [0; 0] (Some [6; 6]) = Ok [6; 6] /\
  (exists real_out_size,
     real_out_size_of (to_int8 (ndim (shape x) - 2)) (shape x) (shape w)
                      [2; 2] [0; 0] None = Ok real_out_size) /\
  (size [7; 7] = Z.max 0 (ndim (shape x) - 2) /\
   forall i, 0 <= i < ndim (shape x) - 2 ->
     exists xd wd s p,
       at_index (shape x) (i + 2) = Ok xd /\
       at_index (shape w) (i + 2) = Ok wd /\
       at_index [2; 2] i = Ok s /\
       at_index [0; 0] i = Ok p /\
       at_index [7; 7] i = Ok (GetConvTransposeOutDim xd wd s p false)).
Proof.
  intros x w fx fw computed explicit.
  assert (H : ndim (shape x) <= INT8_MAX) by (cbn; unfold INT8_MAX; lia).
  destruct (ConvTranspose_real_out_size x w None [2; 2] [0; 0] None H)
    as (Hcall & _ & Hentries & Htotal).
  destruct (ConvTranspose_real_out_size x w None [2; 2] [0; 0] (Some [6; 6]) H)
    as (Hcall' & Hgiven & _ & _).
  split; [exact H |].
  split; [rewrite Hcall; reflexivity |].
  split; [rewrite Hcall'; reflexivity |].
  split; [apply Hgiven; reflexivity |].
  split.
  - apply Htotal; [reflexivity | cbn; lia ..].
  - apply Hentries; reflexivity.
Defined.

Lemma ConvGradW_preconditions_witness :
  let x := array_of_shape [1; 3; 5; 5] in
  let gy := array_of_shape [1; 4; 3; 3] in
  let w_shape := [4; 3; 3; 3] in
  let out := DeviceConvGradWeight (dtype x) w_shape x gy [1; 1] [0; 0] false in
  ndim w_shape <= INT8_MAX /\
  (0 < ndim w_shape - 2 /\ ndim (shape x) = ndim w_shape /\
   ndim (shape gy) = ndim w_shape /\
   size [1; 1] = ndim w_shape - 2 /\ size [0; 0] = ndim w_shape - 2) /\
  exists g' fx,
    ConvGradW (dtype x) w_shape x gy [1; 1] [0; 0] false [] = Ok (out, g') /\
    registers [] g' "conv-grad-weight"%string out 0 x fx /\
    forall gout ids g0, call_backward fx gout ids g0 <> Err AssertionFailure.
Proof.
  intros x gy w_shape out.
  assert (H : ndim w_shape <= INT8_MAX) by (cbn; unfold INT8_MAX; lia).
  assert (P : 0 < ndim w_shape - 2 /\ ndim (shape x) = ndim w_shape /\
              ndim (shape gy) = ndim w_shape /\
              size [1; 1] = ndim w_shape - 2 /\ size [0; 0] = ndim w_shape - 2)
    by (cbn; repeat split; lia).
  split; [exact H |]. split; [exact P |].
  exact (proj1 (ConvGradW_preconditions (dtype x) w_shape x gy [1; 1] [0; 0] false [] H) P).
Defined.

Lemma ConvTranspose_cover_all_loop_out_of_range_witness :
  let x := array_of_shape [1; 1; 3; 3] in
  let w := array_of_shape [1; 1; 3; 3] in
  size [5; 5] = ndim (shape x) - 2 /\
  cover_all_test (shape x) (shape w) [5; 5] [1; 1] [0; 0] 0 = Ok false /\
  cover_all_test (shape x) (shape w) [5; 5] [1; 1] [0; 0] 1 = Ok false /\
  detect_cover_all (shape x) (shape w) [5; 5] [1; 1] [0; 0] = Err OutOfRange /\
  ConvTranspose x w None [1; 1] [0; 0] None [] = Err OutOfRange.
Proof.
  intros x w.
  destruct (ConvTranspose_cover_all_loop_out_of_range (R := ShapeRuntime))
    as (_ & _ & Hend & Hcall & _ & _).
  assert (Hdetect : detect_cover_all (shape x) (shape w) [5; 5] [1; 1] [0; 0]
                    = Err OutOfRange).
  { apply Hend; [cbn; lia | reflexivity |].
    intros i Hi. assert (Ei : i = 0 \/ i = 1) by (cbn in Hi; lia).
    destruct Ei as [-> | ->]; reflexivity. }
  split; [reflexivity |]. split; [reflexivity |]. split; [reflexivity |].
  split; [exact Hdetect |].
  exact (Hcall x w None [1; 1] [0; 0] None [5; 5] [] eq_refl Hdetect).
Defined.

(** * Further properties of the dimension arithmetic *)

(** X1. [GetConvTransposeOutDim] has no division, so overflow in its
    intermediate results cancels: for all arguments the result is the exact
    value of the formula reduced once to [int64_t]. *)
Theorem GetConvTransposeOutDim_modular
    (in_dim kernel_size stride pad : Z) (cover_all : bool) :
  GetConvTransposeOutDim in_dim kernel_size stride pad cover_all =
  to_int64 (stride * (in_dim - 1) + kernel_size
            - (if cover_all then stride - 1 else 0) - 2 * pad).
Proof.
  unfold GetConvTransposeOutDim, add64, sub64, mul64.
  destruct cover_all.
  - etransitivity; [apply to_int64_eqm64; eqm64_erase |]. f_equal. ring.
  - etransitivity; [apply to_int64_eqm64; eqm64_erase |]. f_equal. ring.
Qed.

(** X2. With [stride = 1] the [cover_all] flag makes no difference, for all
    arguments: both functions return the same value with and without it. *)
Theorem stride_one_ignores_cover_all (in_dim kernel_size pad : Z) :
  GetConvOutDim in_dim kernel_size 1 pad true =
  GetConvOutDim in_dim kernel_size 1 pad false /\
  GetConvTransposeOutDim in_dim kernel_size 1 pad true =
  GetConvTransposeOutDim in_dim kernel_size 1 pad false.
Proof.
  split.
  - unfold GetConvOutDim, div64. cbn [Z.eqb Pos.eqb rbind].
    rewrite !andb_false_r. cbn [rbind]. rewrite !Z.quot_1_r.
    unfold add64, sub64, mul64. f_equal.
    etransitivity; [apply to_int64_eqm64; eqm64_erase |].
    symmetry.
    etransitivity; [apply to_int64_eqm64; eqm64_erase |].
    f_equal. ring.
  - unfold GetConvTransposeOutDim, add64, sub64, mul64.
    etransitivity; [apply to_int64_eqm64; eqm64_erase |].
    symmetry.
    etransitivity; [apply to_int64_eqm64; eqm64_erase |].
    f_equal. ring.
Qed.

(** X3. The transposed formula is inverted by the convolution formula: for
    [in >= 1], non-negative [kernel] and [pad], positive [stride] and no
    overflow, [GetConvOutDim] applied to
    [GetConvTransposeOutDim(in, kernel, stride, pad, cover_all)] with the same
    parameters returns [in], with or without [cover_all]. *)
Theorem GetConvOutDim_inverts_GetConvTransposeOutDim
    (in_dim kernel_size stride pad : Z) (cover_all : bool) :
  1 <= in_dim -> 0 <= kernel_size -> 0 <= pad -> 0 < stride ->
  stride * in_dim + kernel_size + 2 * pad <= INT64_MAX ->
  GetConvOutDim (GetConvTransposeOutDim in_dim kernel_size stride pad cover_all)
                kernel_size stride pad cover_all = Ok in_dim.
Proof.
  intros Hin Hk Hp Hs Hmax.
  assert (Hm : 0 <= stride * (in_dim - 1))
    by (apply Z.mul_nonneg_nonneg; lia).
  assert (Hsi : in_dim - 1 <= stride * (in_dim - 1)).
  { assert (0 <= (stride - 1) * (in_dim - 1)) by (apply Z.mul_nonneg_nonneg; lia).
    lia. }
  rewrite GetConvTransposeOutDim_exact
    by (try destruct cover_all; unfold INT64_MIN, INT64_MAX in *; lia).
  unfold GetConvOutDim. destruct cover_all; int64_exact.
  - rewrite div64_exact by (unfold INT64_MIN, INT64_MAX in *; lia). cbn [rbind].
    replace (stride * (in_dim - 1) + kernel_size - (stride - 1) - 2 * pad
             + pad * 2 - kernel_size + stride - 1)
      with ((in_dim - 1) * stride) by ring.
    rewrite Z.quot_mul by lia. int64_exact. f_equal. lia.
  - rewrite div64_exact by (unfold INT64_MIN, INT64_MAX in *; lia). cbn [rbind].
    replace (stride * (in_dim - 1) + kernel_size - 0 - 2 * pad
             + pad * 2 - kernel_size)
      with ((in_dim - 1) * stride) by ring.
    rewrite Z.quot_mul by lia. int64_exact. f_equal. lia.
Qed.

Lemma GetConvOutDim_inverts_GetConvTransposeOutDim_witness :
  GetConvOutDim (GetConvTransposeOutDim 3 3 2 1 true) 3 2 1 true = Ok 3.
Proof.
  apply GetConvOutDim_inverts_GetConvTransposeOutDim; unfold INT64_MAX; lia.
Defined.

(** X4. For non-negative arguments with [kernel <= in + 2*pad], positive
    [stride] and no overflow, the size with [cover_all] is the size without
    it when [stride] divides [in + 2*pad - kernel], and one more otherwise. *)
Theorem GetConvOutDim_cover_all_adds_remainder
    (in_dim kernel_size stride pad : Z) :
  0 <= in_dim -> 0 <= kernel_size -> 0 <= pad -> 0 < stride ->
  kernel_size <= in_dim + 2 * pad ->
  in_dim + 2 * pad + stride <= INT64_MAX ->
  exists out,
    GetConvOutDim in_dim kernel_size stride pad false = Ok out /\
    GetConvOutDim in_dim kernel_size stride pad true =
      Ok (if (in_dim + 2 * pad - kernel_size) mod stride =? 0 then out else out + 1).
Proof.
  intros Hin Hk Hp Hs Hfit Hmax.
  exists ((in_dim + 2 * pad - kernel_size) / stride + 1). split.
  - rewrite GetConvOutDim_exact by lia. rewrite Z.add_0_r.
    rewrite quot_nonneg_div by lia. reflexivity.
  - rewrite GetConvOutDim_exact by lia.
    replace (in_dim + 2 * pad - kernel_size + (stride - 1))
      with ((in_dim + 2 * pad - kernel_size) + stride - 1) by lia.
    rewrite ceil_div_quot by lia. unfold ceil_div.
    destruct ((in_dim + 2 * pad - kernel_size) mod stride =? 0); reflexivity.
Qed.

Lemma GetConvOutDim_cover_all_adds_remainder_witness :
  exists out,
    GetConvOutDim 8 3 2 0 false = Ok out /\
    GetConvOutDim 8 3 2 0 true =
      Ok (if (8 + 2 * 0 - 3) mod 2 =? 0 then out else out + 1).
Proof.
  apply GetConvOutDim_cover_all_adds_remainder; unfold INT64_MAX; lia.
Defined.

(** X5. For valid arguments and no overflow the convolution output size is
    at least [1] and at most [in + 2*pad - kernel + 1], with or without
    [cover_all]. *)
Theorem GetConvOutDim_bounds
    (in_dim kernel_size stride pad : Z) (cover_all : bool) :
  valid_args in_dim kernel_size stride pad ->
  in_dim + 2 * pad + stride <= INT64_MAX ->
  exists out,
    GetConvOutDim in_dim kernel_size stride pad cover_all = Ok out /\
    1 <= out <= in_dim + 2 * pad - kernel_size + 1.
Proof.
  intros (Hin & Hk & Hs & Hp & Hfit) Hmax.
  rewrite GetConvOutDim_exact by lia. eexists. split; [reflexivity |].
  set (a := in_dim + 2 * pad - kernel_size).
  assert (Ha : 0 <= a) by (unfold a; lia).
  assert (Hsa : a <= stride * a).
  { assert (0 <= (stride - 1) * a) by (apply Z.mul_nonneg_nonneg; lia). lia. }
  destruct cover_all.
  - rewrite quot_nonneg_div by lia.
    pose proof (div_bounds (a + (stride - 1)) stride ltac:(lia) ltac:(lia)).
    assert ((a + (stride - 1)) / stride < a + 1)
      by (apply Z.div_lt_upper_bound; lia).
    lia.
  - rewrite Z.add_0_r, quot_nonneg_div by lia.
    pose proof (div_bounds a stride Ha ltac:(lia)). lia.
Qed.

Lemma GetConvOutDim_bounds_witness :
  valid_args 8 3 2 0 /\
  exists out, GetConvOutDim 8 3 2 0 true = Ok out /\ 1 <= out <= 8 + 2 * 0 - 3 + 1.
Proof.
  assert (V : valid_args 8 3 2 0) by (unfold valid_args; lia).
  split; [exact V |].
  apply (GetConvOutDim_bounds 8 3 2 0 true V). unfold INT64_MAX; lia.
Defined.

(** X6. The convolution output size does not decrease when the input size
    grows: for non-negative arguments, positive [stride] and no overflow,
    [in <= in'] gives [GetConvOutDim(in, ...) <= GetConvOutDim(in', ...)]. *)
Theorem GetConvOutDim_monotone
    (in_dim in_dim' kernel_size stride pad : Z) (cover_all : bool) :
  0 <= in_dim <= in_dim' -> 0 <= kernel_size <= INT64_MAX -> 0 <= pad -> 0 < stride ->
  in_dim' + 2 * pad + stride <= INT64_MAX ->
  exists out out',
    GetConvOutDim in_dim kernel_size stride pad cover_all = Ok out /\
    GetConvOutDim in_dim' kernel_size stride pad cover_all = Ok out' /\
    out <= out'.
Proof.
  intros Hin Hk Hp Hs Hmax.
  rewrite !GetConvOutDim_exact by lia.
  do 2 eexists. split; [reflexivity |]. split; [reflexivity |].
  apply Z.add_le_mono_r, Z.quot_le_mono; lia.
Qed.

Lemma GetConvOutDim_monotone_witness :
  exists out out',
    GetConvOutDim 5 3 2 1 false = Ok out /\
    GetConvOutDim 8 3 2 1 false = Ok out' /\
    out <= out'.
Proof.
  apply GetConvOutDim_monotone; unfold INT64_MAX; lia.
Defined.

(** * Further properties of the routines *)

Lemma at_index_Ok_in_range (v : list Z) (i z : Z) :
  at_index v i = Ok z -> 0 <= i < Z.of_nat (length v).
Proof.
  intros H. destruct (Z_lt_ge_dec i 0) as [Hneg | Hpos].
  - unfold at_index in H. destruct (Z.ltb_spec i 0); [discriminate | lia].
  - destruct (Z_lt_ge_dec i (Z.of_nat (length v))) as [Hlt | Hge]; [lia |].
    rewrite at_index_out_of_range in H by lia. discriminate.
Qed.

Section LoopFacts.

Variables (x_shape w_shape : Shape) (real_out_size stride pad : StackVector).

Let test := cover_all_test x_shape w_shape real_out_size stride pad.
Let loop := detect_cover_all_loop x_shape w_shape real_out_size stride pad.

(** The loop either runs through with every test equal, or stops at the
    first index whose test is not "equal". *)
Lemma detect_cover_all_loop_first_stop (lo : Z) (n : nat) :
  ((forall i, lo <= i < lo + Z.of_nat n -> test i = Ok false) /\
   loop (zrange lo n) = Ok false)
  \/
  (exists i,
     lo <= i < lo + Z.of_nat n /\
     (forall j, lo <= j < i -> test j = Ok false) /\
     test i <> Ok false /\
     loop (zrange lo n) =
       match test i with Ok _ => Ok true | Err e => Err e end).
Proof.
  revert lo. induction n as [| n IH]; intros lo.
  - left. split; [intros i Hi; lia | reflexivity].
  - cbn [zrange]. unfold loop. cbn [detect_cover_all_loop]. fold loop. fold test.
    destruct (test lo) as [[|] | e] eqn:E; cbn [rbind].
    + right. exists lo. rewrite E.
      split; [lia |]. split; [intros j Hj; lia |].
      split; [discriminate | reflexivity].
    + destruct (IH (lo + 1)) as [[Hall Hloop] | (i & Hi & Hbefore & Hstop & Hloop)].
      * left. split; [| exact Hloop].
        intros i Hi. destruct (Z.eq_dec i lo) as [-> | Hne]; [exact E |].
        apply Hall. lia.
      * right. exists i. split; [lia |]. split; [| split; assumption].
        intros j Hj. destruct (Z.eq_dec j lo) as [-> | Hne]; [exact E |].
        apply Hbefore. lia.
    + right. exists lo. rewrite E.
      split; [lia |]. split; [intros j Hj; lia |].
      split; [discriminate | reflexivity].
Qed.

End LoopFacts.

Section MoreRoutineFacts.

Context {R : Runtime}.

Lemma Conv_inv (x w : Array) (b : option Array) (stride pad : StackVector)
    (cover_all : bool) (g g' : Graph R) (out : Array) :
  Conv x w b stride pad cover_all g = Ok (out, g') ->
  out = DeviceConv x w b stride pad cover_all /\
  g' = SetUpOpNodes "conv"%string
         (x :: w :: match b with Some b' => [b'] | None => [] end) out
         (Conv_x_backward (shape x) w stride pad
          :: Conv_w_backward (dtype w) (shape w) x stride pad cover_all
          :: match b with Some _ => [Conv_b_backward] | None => [] end) g.
Proof.
  unfold Conv. destruct b; intros [= <- <-]; auto.
Qed.

Lemma real_out_size_of_size (n : Z) (x_shape w_shape : Shape)
    (stride pad ros : StackVector) :
  real_out_size_of n x_shape w_shape stride pad None = Ok ros ->
  size ros = Z.max 0 n.
Proof.
  cbn [real_out_size_of]. intros H. apply emplace_each_entries in H.
  destruct H as [Hlen _]. unfold for_range in Hlen.
  rewrite zrange_length in Hlen. unfold size. lia.
Qed.

(** X7. A [ConvTranspose] call on an [x] with its two leading axes, with no
    explicit output size or one entry per spatial axis, never leaves
    [cover_all] at [false]: whenever it returns, the backward functions it
    has registered for [x] and [w] hold [cover_all = true]. *)
Theorem ConvTranspose_registers_cover_all_true (x w : Array) (b : option Array)
    (stride pad : StackVector) (out_size : option StackVector)
    (g g' : Graph R) (out : Array) :
  2 <= ndim (shape x) <= INT8_MAX ->
  (forall s, out_size = Some s -> size s = ndim (shape x) - 2) ->
  ConvTranspose x w b stride pad out_size g = Ok (out, g') ->
  registers g g' "conv_transpose"%string out 0 x
            (ConvTranspose_x_backward (shape x) w stride pad true) /\
  registers g g' "conv_transpose"%string out 1 w
            (ConvTranspose_w_backward (dtype w) (shape w) x stride pad true).
Proof.
  intros Hx Hsize H. apply ConvTranspose_inv in H.
  destruct H as (ros & c & Hros & Hc & _ & ->).
  assert (En : to_int8 (ndim (shape x) - 2) = ndim (shape x) - 2)
    by (apply to_int8_small; unfold INT8_MAX in *; lia).
  rewrite En in Hros.
  assert (Hlen : size ros = ndim (shape x) - 2).
  { destruct out_size as [s |].
    - injection Hros as <-. now apply Hsize.
    - apply real_out_size_of_size in Hros. lia. }
  assert (c = true) as ->.
  { destruct c; [reflexivity |].
    exfalso. eapply detect_cover_all_never_false; [| exact Hlen | exact Hc]. lia. }
  split; apply registers_SetUpOpNodes; destruct b; reflexivity.
Qed.

(** X8. The detection loop stops at the first index whose test differs or
    fails: it returns [true] exactly when some index [i < x.ndim()] has a
    differing test and every earlier test was equal, [false] exactly when
    every test is equal, and fails with the failure of the first test that
    fails after equal ones. *)
Theorem detect_cover_all_first_difference (x_shape w_shape : Shape)
    (real_out_size stride pad : StackVector) :
  let test := cover_all_test x_shape w_shape real_out_size stride pad in
  let detected := detect_cover_all x_shape w_shape real_out_size stride pad in
  (detected = Ok true <->
   exists i, 0 <= i < ndim x_shape /\ test i = Ok true /\
             forall j, 0 <= j < i -> test j = Ok false) /\
  (detected = Ok false <->
   forall i, 0 <= i < ndim x_shape -> test i = Ok false) /\
  (forall e,
     detected = Err e <->
     exists i, 0 <= i < ndim x_shape /\ test i = Err e /\
               forall j, 0 <= j < i -> test j = Ok false).
Proof.
  intros test detected.
  pose proof (detect_cover_all_loop_first_stop x_shape w_shape real_out_size
                stride pad 0 (Z.to_nat (ndim x_shape - 0))) as Hstop.
  fold test in Hstop.
  assert (Erange : 0 + Z.of_nat (Z.to_nat (ndim x_shape - 0)) = ndim x_shape)
    by (unfold ndim; lia).
  rewrite Erange in Hstop.
  change (detect_cover_all_loop x_shape w_shape real_out_size stride pad
            (zrange 0 (Z.to_nat (ndim x_shape - 0)))) with detected in Hstop.
  assert (Hfirst : forall i i',
             (forall j, 0 <= j < i -> test j = Ok false) -> test i <> Ok false ->
             (forall j, 0 <= j < i' -> test j = Ok false) -> test i' <> Ok false ->
             0 <= i -> 0 <= i' -> i = i').
  { intros i i' Hb Hs Hb' Hs' Hi Hi'.
    destruct (Z.lt_trichotomy i i') as [Hlt | [Heq | Hgt]]; [| exact Heq |].
    - exfalso. apply Hs, Hb'. lia.
    - exfalso. apply Hs', Hb. lia. }
  destruct Hstop as [[Hall Hloop] | (i & Hi & Hbefore & Hne & Hloop)].
  - rewrite Hloop. split; [| split].
    + split; [discriminate |].
      intros (i & Hi & Ht & _). rewrite Hall in Ht by lia. discriminate.
    + split; [intros _; exact Hall | reflexivity].
    + intros e. split; [discriminate |].
      intros (i & Hi & Ht & _). rewrite Hall in Ht by lia. discriminate.
  - rewrite Hloop. split; [| split].
    + split.
      * intros H. exists i. split; [exact Hi |]. split; [| exact Hbefore].
        destruct (test i) as [[|] |]; congruence.
      * intros (i' & Hi' & Ht' & Hb').
        assert (i = i') as -> by (apply Hfirst; try assumption; try lia; congruence).
        rewrite Ht'. reflexivity.
    + split.
      * intros H. destruct (test i) as [[|] |]; congruence.
      * intros Hall. exfalso. apply Hne, Hall. lia.
    + intros e. split.
      * intros H. exists i. split; [exact Hi |]. split; [| exact Hbefore].
        destruct (test i) as [[|] |]; congruence.
      * intros (i' & Hi' & Ht' & Hb').
        assert (i = i') as -> by (apply Hfirst; try assumption; try lia; congruence).
        rewrite Ht'. reflexivity.
Qed.

End MoreRoutineFacts.

Section HigherOrder.

Context {R : Runtime}.


(** X9. A backward function that returns has left the graph built so far
    untouched: the bias functions add nothing to it, and every other one
    appends exactly one node, whose output is the array returned and which
    has two inputs, [gout] among them, and two backward functions. *)
Theorem call_backward_extends_graph (f : BackwardFunction R) (gout : Array)
    (ids : list GraphId) (g g' : Graph R) (r : Array) :
  call_backward f gout ids g = Ok (r, g') ->
  match f with
  | Conv_b_backward | ConvTranspose_b_backward => g' = g
  | _ =>
      exists node,
        g' = g ++ [node] /\ op_output node = r /\
        length (op_inputs node) = 2%nat /\ length (op_backward node) = 2%nat /\
        In gout (op_inputs node)
  end.
Proof.
  destruct f; cbn [call_backward]; intros H.
  - destruct (spatial_dims x_shape) as [out_size | e]; cbn [rbind] in H;
      [| discriminate].
    destruct (assert _) as [[] | e]; cbn [rbind] in H; [| discriminate].
    apply ConvTranspose_inv in H. destruct H as (ros & c & _ & _ & _ & ->).
    eexists. split; [reflexivity |]. cbn. repeat split; auto.
  - apply Conv_inv in H. destruct H as [_ ->].
    eexists. split; [reflexivity |]. cbn. repeat split; auto.
  - destruct (spatial_dims x_shape) as [out_size | e]; cbn [rbind] in H;
      [| discriminate].
    apply ConvTranspose_inv in H. destruct H as (ros & c & _ & _ & _ & ->).
    eexists. split; [reflexivity |]. cbn. repeat split; auto.
  - apply ConvGradW_inv in H. destruct H as (_ & _ & _ & _ & _ & _ & ->).
    eexists. split; [reflexivity |]. cbn. repeat split; auto.
  - injection H as _ <-. reflexivity.
  - apply Conv_inv in H. destruct H as [_ ->].
    eexists. split; [reflexivity |]. cbn. repeat split; auto.
  - apply ConvGradW_inv in H. destruct H as (_ & _ & _ & _ & _ & _ & ->).
    eexists. split; [reflexivity |]. cbn. repeat split; auto.
  - injection H as _ <-. reflexivity.
Qed.




(** X13. With no explicit output size and at least one spatial axis,
    [ConvTranspose] computes the output size exactly when [w] has as many
    axes as [x] and [stride] and [pad] have an entry for every spatial axis;
    otherwise the call ends with an index out of range. *)
Theorem ConvTranspose_out_size_needs_entries (x w : Array) (b : option Array)
    (stride pad : StackVector) (g : Graph R) :
  2 < ndim (shape x) <= INT8_MAX ->
  let n := ndim (shape x) - 2 in
  let entries :=
    ndim (shape x) <= ndim (shape w) /\ n <= size stride /\ n <= size pad in
  ((exists real_out_size,
      real_out_size_of (to_int8 n) (shape x) (shape w) stride pad None =
      Ok real_out_size) <-> entries) /\
  (~ entries -> ConvTranspose x w b stride pad None g = Err OutOfRange).
Proof.
  intros Hx n entries.
  assert (En : to_int8 n = n).
  { apply to_int8_small. unfold n, INT8_MAX in *. lia. }
  assert (Hiff : (exists ros,
                    real_out_size_of (to_int8 n) (shape x) (shape w) stride pad None
                    = Ok ros) <-> entries).
  { rewrite En. unfold entries. split.
    - intros [ros Hros]. cbn [real_out_size_of] in Hros.
      apply emplace_each_entries in Hros. destruct Hros as [_ Hnth].
      destruct (Hnth (Z.to_nat (n - 1)) (n - 1)) as (v & Hbody & _).
      { unfold for_range. rewrite zrange_nth_error by (unfold n in *; lia).
        f_equal. unfold n in *. lia. }
      destruct (at_index (shape x) (n - 1 + 2)) as [xd | e]; cbn [rbind] in Hbody;
        [| discriminate].
      destruct (at_index (shape w) (n - 1 + 2)) as [wd | e] eqn:Ew;
        cbn [rbind] in Hbody; [| discriminate].
      destruct (at_index stride (n - 1)) as [s | e] eqn:Es; cbn [rbind] in Hbody;
        [| discriminate].
      destruct (at_index pad (n - 1)) as [p | e] eqn:Ep; cbn [rbind] in Hbody;
        [| discriminate].
      apply at_index_Ok_in_range in Ew, Es, Ep.
      unfold n, ndim, size in *. lia.
    - intros (Hw & Hstride & Hpad). cbn [real_out_size_of].
      apply emplace_each_total. intros i Hi. apply for_range_In in Hi.
      destruct (at_index_in_range (shape x) (i + 2)) as [xd ->];
        [unfold n, ndim in *; lia |].
      destruct (at_index_in_range (shape w) (i + 2)) as [wd ->];
        [unfold n, ndim in *; lia |].
      destruct (at_index_in_range stride i) as [s ->]; [unfold size in *; lia |].
      destruct (at_index_in_range pad i) as [p ->]; [unfold size in *; lia |].
      cbn [rbind]. eauto. }
  split; [exact Hiff |].
  intros Hnot. unfold ConvTranspose. fold n.
  destruct (real_out_size_of (to_int8 n) (shape x) (shape w) stride pad None)
    as [ros | e] eqn:Eros; cbn [rbind].
  - exfalso. apply Hnot, Hiff. eauto.
  - apply real_out_size_of_failure in Eros. now subst e.
Qed.

End HigherOrder.

(** ** The further properties on concrete calls *)

Lemma ConvTranspose_registers_cover_all_true_witness :
  let x := array_of_shape [1; 3; 3; 3] in
  let w := array_of_shape [3; 4; 3; 3] in
  let out := array_of_shape [1; 4; 7; 7] in
  let g' :=
    SetUpOpNodes "conv_transpose"%string [x; w] out
      [ConvTranspose_x_backward [1; 3; 3; 3] w [2; 2] [0; 0] true;
       ConvTranspose_w_backward (dtype w) [3; 4; 3; 3] x [2; 2] [0; 0] true] [] in
  ConvTranspose x w None [2; 2] [0; 0] (Some [7; 7]) [] = Ok (out, g') /\
  registers [] g' "conv_transpose"%string out 0 x
            (ConvTranspose_x_backward (shape x) w [2; 2] [0; 0] true) /\
  registers [] g' "conv_transpose"%string out 1 w
            (ConvTranspose_w_backward (dtype w) (shape w) x [2; 2] [0; 0] true).
Proof.
  intros x w out g'.
  assert (H : ConvTranspose x w None [2; 2] [0; 0] (Some [7; 7]) [] = Ok (out, g'))
    by reflexivity.
  split; [exact H |].
  apply (ConvTranspose_registers_cover_all_true x w None [2; 2] [0; 0]
           (Some [7; 7]) [] g' out).
  - cbn. unfold INT8_MAX. lia.
  - intros s [= <-]. reflexivity.
  - exact H.
Defined.

Lemma call_backward_extends_graph_witness :
  let x_shape := [1; 3; 5; 5] in
  let w := array_of_shape [4; 3; 3; 3] in
  let gout := array_of_shape [1; 4; 3; 3] in
  let f := Conv_x_backward x_shape w [1; 1] [0; 0] in
  exists r g',
    call_backward f gout [] [] = Ok (r, g') /\
    exists node,
      g' = [] ++ [node] /\ op_output node = r /\
      length (op_inputs node) = 2%nat /\ length (op_backward node) = 2%nat /\
      In gout (op_inputs node).
Proof.
  intros x_shape w gout f.
  assert (H : call_backward f gout [] [] =
              Ok (array_of_shape [1; 3; 5; 5],
                  SetUpOpNodes "conv_transpose"%string
                    [gout; w] (array_of_shape [1; 3; 5; 5])
                    [ConvTranspose_x_backward [1; 4; 3; 3] w [1; 1] [0; 0] true;
                     ConvTranspose_w_backward (dtype w) [4; 3; 3; 3] gout
                                              [1; 1] [0; 0] true] []))
    by reflexivity.
  do 2 eexists. split; [exact H |].
  exact (call_backward_extends_graph f gout [] [] _ _ H).
Defined.




Lemma ConvTranspose_out_size_needs_entries_witness :
  let x := array_of_shape [1; 3; 3; 3] in
  let w := array_of_shape [3; 4; 3; 3] in
  2 < ndim (shape x) <= INT8_MAX /\
  ~ (ndim (shape x) <= ndim (shape w) /\ ndim (shape x) - 2 <= size [2] /\
     ndim (shape x) - 2 <= size [0; 0]) /\
  ConvTranspose x w None [2] [0; 0] None [] = Err OutOfRange.
Proof.
  intros x w.
  assert (H : 2 < ndim (shape x) <= INT8_MAX) by (cbn; unfold INT8_MAX; lia).
  assert (N : ~ (ndim (shape x) <= ndim (shape w) /\ ndim (shape x) - 2 <= size [2] /\
                 ndim (shape x) - 2 <= size [0; 0])) by (cbn; lia).
  split; [exact H |]. split; [exact N |].
  exact (proj2 (ConvTranspose_out_size_needs_entries x w None [2] [0; 0] [] H) N).
Defined.
